(** * The 2048 rules engine of [Game2048]: line resolver, move engine,
      tile spawner, terminal detector and the session handlers.

    The definitions up to [perform] are a shallow embedding of the
    functions of the component source, each under the name it has there.
    Tile values, the score and the three powerup counters are JavaScript
    numbers that only ever hold integers (far below 2^53), so they are
    [Z].  A cell [number | null] is an [option Z], [None] being [null].
    Arrays are lists: reading uses [nth], writing uses stdpp's list
    insert.  The boards the component builds are all 4x4 ([wfBoard]); the
    statements about boards are made on those.  The one product of
    numbers that are not integers, in [addRandomTile], is the double
    product ([roundDouble]). *)

From Stdlib Require Import ZArith QArith Qround Qpower Lia Lqa.
From stdpp Require Import base tactics option list strings.

Local Open Scope Z_scope.
Local Open Scope nat_scope.

(** ** Data model *)

Abbreviation Cell := (option Z) (only parsing).
Abbreviation GameBoard := (list (list (option Z))) (only parsing).

Definition GRID_SIZE : nat := 4.
Definition WINNING_NUMBER : Z := 2048.

Definition UNDO_UNLOCK_THRESHOLD : Z := 128.
Definition SWAP_UNLOCK_THRESHOLD : Z := 256.
Definition DELETE_UNLOCK_THRESHOLD : Z := 512.
Definition MAX_UNDO_COUNT : Z := 3.
Definition MAX_SWAP_COUNT : Z := 2.
Definition MAX_DELETE_COUNT : Z := 1.

Inductive Direction : Type := Up | Down | Left | Right.

(** [a === b] on cells. *)
Definition strictEq (a b : Cell) : bool := bool_decide (a = b).

(** JavaScript truthiness of a cell: [null] and [0] are falsy. *)
Definition truthy (c : Cell) : bool :=
  match c with
  | Some v => negb (v =? 0)%Z
  | None => false
  end.

(** [board[row][col]].  On a 4x4 board and indices below 4 this is the
    cell read by the source; the default is only reached outside. *)
Definition cellAt (board : GameBoard) (row col : nat) : Cell :=
  nth col (nth row board []) None.

(** [board[row][col] = v] when [board[row]] is an array of its own. *)
Definition setCell (board : GameBoard) (row col : nat) (v : Cell) : GameBoard :=
  <[row := <[col := v]> (nth row board [])]> board.

(** A counting [for (let i = 0; i < n; i++)] loop threading a state. *)
Definition forRange {S : Type} (n : nat) (body : nat → S → S) (init : S) : S :=
  foldl (λ st i, body i st) init (seq 0 n).

(** ** [arraysEqual] *)

Fixpoint everyFrom {A : Type} (p : A → nat → bool) (idx : nat) (arr : list A) : bool :=
  match arr with
  | [] => true
  | val :: rest => p val idx && everyFrom p (S idx) rest
  end.

(** [arr.every((val, idx) => p(val, idx))]. *)
Definition every {A : Type} (p : A → nat → bool) (arr : list A) : bool :=
  everyFrom p 0 arr.

Definition arraysEqual (arr1 arr2 : list Cell) : bool :=
  (length arr1 =? length arr2)
  && every (λ val idx, strictEq val (nth idx arr2 None)) arr1.

(** ** [initializeBoard] *)

Definition initializeBoard : GameBoard :=
  replicate GRID_SIZE (replicate GRID_SIZE None).

(** ** [moveLine] *)

(** [line.filter(cell => cell !== null) as number[]]. *)
Fixpoint filteredLine (line : list Cell) : list Z :=
  match line with
  | [] => []
  | None :: rest => filteredLine rest
  | Some v :: rest => v :: filteredLine rest
  end.

(** The first [while] loop of [moveLine], with its three variables [i],
    [newLine] and [score].  Every iteration advances [i], so
    [length f] iterations always suffice (lemma [mergeLoop_spec]). *)
Fixpoint mergeLoop (fuel : nat) (f : list Z) (i : nat)
    (newLine : list Cell) (score : Z) : list Cell * Z :=
  match fuel with
  | O => (newLine, score)
  | S fuel' =>
      if i <? length f then
        if (i <? length f - 1) && (nth i f 0 =? nth (i + 1) f 0)%Z then
          let mergedValue := (nth i f 0 * 2)%Z in
          mergeLoop fuel' f (i + 2) (newLine ++ [Some mergedValue])
                    (score + mergedValue)%Z
        else
          mergeLoop fuel' f (i + 1) (newLine ++ [Some (nth i f 0%Z)]) score
      else (newLine, score)
  end.

(** The second loop: [while (newLine.length < GRID_SIZE) newLine.push(null)],
    run for the [k] missing slots. *)
Fixpoint fillNulls (k : nat) (newLine : list Cell) : list Cell :=
  match k with
  | O => newLine
  | S k' => fillNulls k' (newLine ++ [None])
  end.

Definition moveLine (line : list Cell) : list Cell * Z :=
  let f := filteredLine line in
  let '(newLine, score) := mergeLoop (length f) f 0 [] 0%Z in
  (fillNulls (GRID_SIZE - length newLine) newLine, score).

(** ** The line resolver as the specification words it

    Scanning left to right, a value equal to the next not yet merged
    value combines with it into one cell of double the value and scanning
    resumes after the pair. *)

Fixpoint slideMerge (vs : list Z) : list Z :=
  match vs with
  | [] => []
  | a :: tl =>
      match tl with
      | [] => [a]
      | b :: rest =>
          if (a =? b)%Z then (2 * a)%Z :: slideMerge rest
          else a :: slideMerge tl
      end
  end.

(** The values newly created by the merges of one resolution. *)
Fixpoint mergedValues (vs : list Z) : list Z :=
  match vs with
  | [] => []
  | a :: tl =>
      match tl with
      | [] => []
      | b :: rest =>
          if (a =? b)%Z then (2 * a)%Z :: mergedValues rest
          else mergedValues tl
      end
  end.

Definition sumZ (vs : list Z) : Z := foldr Z.add 0%Z vs.

(** The resolved line of the specification: merged values, then empties. *)
Definition resolvedLine (vs : list Z) : list Cell :=
  (Some <$> slideMerge vs) ++ replicate (GRID_SIZE - length (slideMerge vs)) None.

(** ** [moveBoard] *)

Record MoveOutcome : Type := mkOutcome {
  newBoard : GameBoard;   (* newBoard *)
  moveScore : Z;          (* score: totalScore *)
  moved : bool            (* moved *)
}.

(** [board.map(row => row[col])]. *)
Definition columnOf (board : GameBoard) (col : nat) : list Cell :=
  map (λ row, nth col row None) board.

Definition moveBoard (board : GameBoard) (direction : Direction) : MoveOutcome :=
  let init := (initializeBoard, 0%Z, false) in
  let '(newBoard, totalScore, moved) :=
    match direction with
    | Left =>
        forRange GRID_SIZE (λ row '(newBoard, totalScore, moved),
          let '(newLine, score) := moveLine (nth row board []) in
          let newBoard := <[row := newLine]> newBoard in
          (newBoard, (totalScore + score)%Z,
           if negb (arraysEqual newLine (nth row board [])) then true else moved))
          init
    | Right =>
        forRange GRID_SIZE (λ row '(newBoard, totalScore, moved),
          let reversedLine := reverse (nth row board []) in
          let '(newLine, score) := moveLine reversedLine in
          let newBoard := <[row := reverse newLine]> newBoard in
          (newBoard, (totalScore + score)%Z,
           if negb (arraysEqual (nth row newBoard []) (nth row board []))
           then true else moved))
          init
    | Up =>
        forRange GRID_SIZE (λ col '(newBoard, totalScore, moved),
          let column := columnOf board col in
          let '(newLine, score) := moveLine column in
          let newBoard :=
            forRange GRID_SIZE (λ row newBoard,
              setCell newBoard row col (nth row newLine None)) newBoard in
          (newBoard, (totalScore + score)%Z,
           if negb (arraysEqual newLine column) then true else moved))
          init
    | Down =>
        forRange GRID_SIZE (λ col '(newBoard, totalScore, moved),
          let column := reverse (columnOf board col) in
          let '(newLine, score) := moveLine column in
          let reversedNewLine := reverse newLine in
          let newBoard :=
            forRange GRID_SIZE (λ row newBoard,
              setCell newBoard row col (nth row reversedNewLine None)) newBoard in
          (newBoard, (totalScore + score)%Z,
           if negb (arraysEqual reversedNewLine (columnOf board col))
           then true else moved))
          init
    end in
  mkOutcome newBoard totalScore moved.

(** ** Double arithmetic

    [Math.random() * emptyCells.length] is a product of doubles: the exact
    product rounded to the nearest double, ties to the even significand.
    A double has a 53-bit significand; below [2^-1022] the spacing stays
    [2^-1074].  Overflow is left out: the products taken here are below
    the number of cells. *)

Definition pow2 (e : Z) : Q := (2 ^ e)%Q.

(** The exponent [e] with [2^e <= x < 2^(e+1)], for [0 < x] (lemmas
    [binade_le] and [binade_lt]). *)
Definition binade (x : Q) : Z :=
  let l := (Z.log2 (Qnum x) - Z.log2 (Zpos (Qden x)))%Z in
  if Qle_bool (pow2 l) x then l else (l - 1)%Z.

(** The nearest integer, a tie going to the even one. *)
Definition roundHalfEven (m : Q) : Z :=
  let f := Qfloor m in
  match (m - inject_Z f ?= 1 # 2)%Q with
  | Lt => f
  | Gt => (f + 1)%Z
  | Eq => if Z.even f then f else (f + 1)%Z
  end.

(** The nearest double of a positive [x]: the nearest multiple of the unit
    in the last place of [x]. *)
Definition roundPositive (x : Q) : Q :=
  let ulp := pow2 (Z.max (binade x) (-1022) - 52) in
  (inject_Z (roundHalfEven (x / ulp)) * ulp)%Q.

Definition roundDouble (x : Q) : Q :=
  match (x ?= 0)%Q with
  | Eq => 0%Q
  | Gt => roundPositive x
  | Lt => (- roundPositive (- x))%Q
  end.

(** The largest double below 1 (lemma [double_below_one]). *)
Definition maxDraw : Q := (1 - pow2 (-53))%Q.

(** ** [addRandomTile]

    The two calls of [Math.random()] are inputs: a draw is a double of
    the interval [0, 1), given as the rational it denotes; the draw that
    picks the cell is therefore at most [maxDraw].  [0.9] stands for the
    double nearest to 9/10; no double lies between the two, so
    [draw < 0.9] is [draw < 9/10]. *)

Record Draw : Type := mkDraw {
  cellDraw : Q;    (* the draw that picks the empty cell *)
  valueDraw : Q    (* the draw that picks 2 or 4 *)
}.

Definition validDraw (d : Draw) : Prop :=
  (0 <= cellDraw d)%Q ∧ (cellDraw d <= maxDraw)%Q
  ∧ (0 <= valueDraw d)%Q ∧ (valueDraw d < 1)%Q.

Definition emptyCells (board : GameBoard) : list (nat * nat) :=
  forRange GRID_SIZE (λ row emptyCells,
    forRange GRID_SIZE (λ col emptyCells,
      if strictEq (cellAt board row col) None
      then emptyCells ++ [(row, col)] else emptyCells) emptyCells) [].

(** [Math.floor(r * n)], the product being the double product. *)
Definition randomIndex (r : Q) (n : nat) : nat :=
  Z.to_nat (Qfloor (roundDouble (r * inject_Z (Z.of_nat n)))).

(** [r < 0.9 ? 2 : 4]. *)
Definition randomValue (r : Q) : Z :=
  if Qlt_le_dec r (9 # 10) then 2%Z else 4%Z.

(** For a valid draw the index is below the length and the [None] branch
    is never taken (lemma [randomIndex_lt]); the source would raise there. *)
Definition addRandomTile (board : GameBoard) (d : Draw) : GameBoard :=
  let cells := emptyCells board in
  if length cells =? 0 then board
  else
    match cells !! randomIndex (cellDraw d) (length cells) with
    | Some (r, c) => setCell board r c (Some (randomValue (valueDraw d)))
    | None => board
    end.

(** ** [isGameWon] and [isGameOver] *)

Definition anyCell (p : nat → nat → bool) : bool :=
  existsb (λ row, existsb (λ col, p row col) (seq 0 GRID_SIZE)) (seq 0 GRID_SIZE).

Definition isGameWon (board : GameBoard) : bool :=
  anyCell (λ row col, strictEq (cellAt board row col) (Some WINNING_NUMBER)).

Definition isGameOver (board : GameBoard) : bool :=
  if anyCell (λ row col, strictEq (cellAt board row col) None) then false
  else if anyCell (λ row col,
            let current := cellAt board row col in
            ((col <? GRID_SIZE - 1) && strictEq (cellAt board row (col + 1)) current)
            || ((row <? GRID_SIZE - 1) && strictEq (cellAt board (row + 1) col) current))
       then false
       else true.

(** ** The component state and its handlers

    The hooks of the component are the fields of one record.  A handler
    reads the values of the render it was created in (the record it is
    given) and queues updates; the queue is applied in order once the
    handler returns, a functional update [prev => e] receiving the value
    left by the updates before it.  The tutorial flags, [bestScore] and
    [isProcessingMove] take no part in the rules and are left out. *)

Record GameState : Type := mkGameState {
  gsBoard : GameBoard;   (* board *)
  gsScore : Z            (* score *)
}.

Inductive PowerupMode : Type := ModeNone | ModeSwap | ModeDelete.

Record Game2048 : Type := mkGame {
  board : GameBoard;
  score : Z;
  gameWon : bool;
  gameOver : bool;
  powerupMode : PowerupMode;
  selectedTiles : list (nat * nat);
  undoStack : list GameState;
  undoCount : Z;
  swapCount : Z;
  deleteCount : Z
}.

#[global] Instance PowerupMode_eq_dec : EqDecision PowerupMode.
Proof. solve_decision. Defined.

Definition Update : Type := Game2048 → Game2048.

Definition setBoard (f : GameBoard → GameBoard) : Update := λ g,
  mkGame (f (board g)) (score g) (gameWon g) (gameOver g) (powerupMode g)
         (selectedTiles g) (undoStack g) (undoCount g) (swapCount g) (deleteCount g).
Definition setScore (f : Z → Z) : Update := λ g,
  mkGame (board g) (f (score g)) (gameWon g) (gameOver g) (powerupMode g)
         (selectedTiles g) (undoStack g) (undoCount g) (swapCount g) (deleteCount g).
Definition setGameWon (f : bool → bool) : Update := λ g,
  mkGame (board g) (score g) (f (gameWon g)) (gameOver g) (powerupMode g)
         (selectedTiles g) (undoStack g) (undoCount g) (swapCount g) (deleteCount g).
Definition setGameOver (f : bool → bool) : Update := λ g,
  mkGame (board g) (score g) (gameWon g) (f (gameOver g)) (powerupMode g)
         (selectedTiles g) (undoStack g) (undoCount g) (swapCount g) (deleteCount g).
Definition setPowerupMode (f : PowerupMode → PowerupMode) : Update := λ g,
  mkGame (board g) (score g) (gameWon g) (gameOver g) (f (powerupMode g))
         (selectedTiles g) (undoStack g) (undoCount g) (swapCount g) (deleteCount g).
Definition setSelectedTiles (f : list (nat * nat) → list (nat * nat)) : Update := λ g,
  mkGame (board g) (score g) (gameWon g) (gameOver g) (powerupMode g)
         (f (selectedTiles g)) (undoStack g) (undoCount g) (swapCount g) (deleteCount g).
Definition setUndoStack (f : list GameState → list GameState) : Update := λ g,
  mkGame (board g) (score g) (gameWon g) (gameOver g) (powerupMode g)
         (selectedTiles g) (f (undoStack g)) (undoCount g) (swapCount g) (deleteCount g).
Definition setUndoCount (f : Z → Z) : Update := λ g,
  mkGame (board g) (score g) (gameWon g) (gameOver g) (powerupMode g)
         (selectedTiles g) (undoStack g) (f (undoCount g)) (swapCount g) (deleteCount g).
Definition setSwapCount (f : Z → Z) : Update := λ g,
  mkGame (board g) (score g) (gameWon g) (gameOver g) (powerupMode g)
         (selectedTiles g) (undoStack g) (undoCount g) (f (swapCount g)) (deleteCount g).
Definition setDeleteCount (f : Z → Z) : Update := λ g,
  mkGame (board g) (score g) (gameWon g) (gameOver g) (powerupMode g)
         (selectedTiles g) (undoStack g) (undoCount g) (swapCount g) (f (deleteCount g)).

(** Applying the queue of a handler to the state it ran in. *)
Definition flush (queue : list Update) (g : Game2048) : Game2048 :=
  foldl (λ st u, u st) g queue.

(** [when c then u]: an update queued under a condition. *)
Definition when (c : bool) (u : Update) : list Update := if c then [u] else [].

(** The state of the first render: the [useState] initial values. *)
Definition initialGame : Game2048 :=
  mkGame initializeBoard 0 false false ModeNone [] [] 2 1 0.

(** [prev => [...prev.slice(-4), snapshot]]. *)
Definition pushSnapshot (snapshot : GameState) (prev : list GameState) : list GameState :=
  drop (length prev - 4) prev ++ [snapshot].

(** *** [processMove] *)

Definition processMove (g : Game2048) (direction : Direction) (d : Draw)
    : Game2048 * bool :=
  let save := setUndoStack (pushSnapshot (mkGameState (board g) (score g))) in
  let out := moveBoard (board g) direction in
  if negb (moved out) then (flush [save] g, false)
  else
    let boardWithNewTile := addRandomTile (newBoard out) d in
    let queue :=
      [save;
       setBoard (λ _, boardWithNewTile);
       setScore (λ prev, prev + moveScore out)%Z]
      ++ when ((UNDO_UNLOCK_THRESHOLD <=? moveScore out)%Z
               && (undoCount g <? MAX_UNDO_COUNT)%Z)
              (setUndoCount (λ prev, Z.min (prev + 1) MAX_UNDO_COUNT))
      ++ when ((SWAP_UNLOCK_THRESHOLD <=? moveScore out)%Z
               && (swapCount g <? MAX_SWAP_COUNT)%Z)
              (setSwapCount (λ prev, Z.min (prev + 1) MAX_SWAP_COUNT))
      ++ when ((DELETE_UNLOCK_THRESHOLD <=? moveScore out)%Z
               && (deleteCount g <? MAX_DELETE_COUNT)%Z)
              (setDeleteCount (λ prev, Z.min (prev + 1) MAX_DELETE_COUNT))
      ++ when (isGameWon boardWithNewTile && negb (gameWon g))
              (setGameWon (λ _, true))
      ++ when (isGameOver boardWithNewTile) (setGameOver (λ _, true)) in
    (flush queue g, true).

(** *** [startNewGame] *)

Definition startNewGame (g : Game2048) (d1 d2 : Draw) : Game2048 :=
  let newBoard := initializeBoard in
  let newBoard := addRandomTile newBoard d1 in
  let newBoard := addRandomTile newBoard d2 in
  flush [setBoard (λ _, newBoard);
         setScore (λ _, 0%Z);
         setGameWon (λ _, false);
         setGameOver (λ _, false);
         setPowerupMode (λ _, ModeNone);
         setSelectedTiles (λ _, []);
         setUndoStack (λ _, []);
         setUndoCount (λ _, 2%Z);
         setSwapCount (λ _, 1%Z);
         setDeleteCount (λ _, 0%Z)] g.

(** *** [handleUndo] *)

Definition handleUndo (g : Game2048) : Game2048 :=
  if (0 <? undoCount g)%Z && (0 <? length (undoStack g)) then
    match undoStack g !! (length (undoStack g) - 1) with
    | Some lastState =>
        flush [setBoard (λ _, gsBoard lastState);
               setScore (λ _, gsScore lastState);
               setUndoStack (λ prev, take (length prev - 1) prev);
               setUndoCount (λ prev, prev - 1)%Z;
               setGameWon (λ _, false);
               setGameOver (λ _, false);
               setPowerupMode (λ _, ModeNone);
               setSelectedTiles (λ _, [])] g
    | None => g   (* excluded by the length test *)
    end
  else g.

(** *** [handleTileClick]

    [None] is the [TypeError] of reading [board[row][col]] when
    [board[row]] is undefined; nothing has been queued by then.  The
    selected tile is a coordinate that passed this first line in an
    earlier click, so its own read is in range. *)

Definition handleTileClick (g : Game2048) (row col : nat) (d1 d2 : Draw)
    : option Game2048 :=
  if bool_decide (powerupMode g = ModeNone) then Some g
  else if length (board g) <=? row then None
  else if negb (truthy (cellAt (board g) row col)) then Some g
  else
    match powerupMode g with
    | ModeSwap =>
        match selectedTiles g with
        | [] => Some (flush [setSelectedTiles (λ _, [(row, col)])] g)
        | [(firstRow, firstCol)] =>
            if (firstRow =? row) && (firstCol =? col) then
              Some (flush [setSelectedTiles (λ _, [])] g)
            else if truthy (cellAt (board g) row col) then
              let newBoard :=
                imap (λ rIdx r,
                  imap (λ cIdx cell,
                    if (rIdx =? firstRow) && (cIdx =? firstCol)
                    then cellAt (board g) row col
                    else if (rIdx =? row) && (cIdx =? col)
                    then cellAt (board g) firstRow firstCol
                    else cell) r) (board g) in
              Some (flush [setUndoStack (pushSnapshot (mkGameState (board g) (score g)));
                           setBoard (λ _, newBoard);
                           setSwapCount (λ prev, prev - 1)%Z;
                           setPowerupMode (λ _, ModeNone);
                           setSelectedTiles (λ _, [])] g)
            else Some g
        | _ => Some g
        end
    | ModeDelete =>
        let targetValue := cellAt (board g) row col in
        if truthy targetValue && (0 <? deleteCount g)%Z then
          let newBoard :=
            map (λ r, map (λ cell, if strictEq cell targetValue then None else cell) r)
                (board g) in
          let hasAnyTiles :=
            existsb (λ row, existsb (λ cell, negb (strictEq cell None)) row) newBoard in
          let finalBoard :=
            if negb hasAnyTiles then
              let boardWithTile1 := addRandomTile newBoard d1 in
              addRandomTile boardWithTile1 d2
            else newBoard in
          Some (flush ([setUndoStack (pushSnapshot (mkGameState (board g) (score g)));
                        setBoard (λ _, finalBoard);
                        setDeleteCount (λ prev, prev - 1)%Z;
                        setPowerupMode (λ _, ModeNone);
                        setSelectedTiles (λ _, [])]
                       ++ when (isGameOver finalBoard) (setGameOver (λ _, true))) g)
        else Some g
    | ModeNone => Some g
    end.

(** *** The powerup buttons

    The swap and delete buttons toggle their mode and are rendered with
    [disabled={swapCount === 0}] and [disabled={deleteCount === 0}]: a
    click on a disabled button runs no handler.  The cancel button clears
    the mode and the selection. *)

Definition swapButtonClick (g : Game2048) : Game2048 :=
  if (swapCount g =? 0)%Z then g
  else flush [setPowerupMode (λ _,
                if bool_decide (powerupMode g = ModeSwap) then ModeNone else ModeSwap)] g.

Definition deleteButtonClick (g : Game2048) : Game2048 :=
  if (deleteCount g =? 0)%Z then g
  else flush [setPowerupMode (λ _,
                if bool_decide (powerupMode g = ModeDelete) then ModeNone else ModeDelete)] g.

Definition cancelButtonClick (g : Game2048) : Game2048 :=
  flush [setPowerupMode (λ _, ModeNone); setSelectedTiles (λ _, [])] g.

(** *** [handleKeyPress]

    The fields of the keyboard event the handler reads.  The flags
    [isProcessingMove] and [showTutorial] are inputs; the handler's own
    [setIsProcessingMove] and its timer are not part of [Game2048]. *)

Record KeyEvent : Type := mkKeyEvent {
  code : string;
  ctrlKey : bool;
  metaKey : bool
}.

(** The [switch] cases that set [direction]. *)
Definition keyDirection (code : string) : option Direction :=
  if bool_decide (code = "ArrowUp") || bool_decide (code = "KeyW") then Some Up
  else if bool_decide (code = "ArrowDown") || bool_decide (code = "KeyS") then Some Down
  else if bool_decide (code = "ArrowLeft") || bool_decide (code = "KeyA") then Some Left
  else if bool_decide (code = "ArrowRight") || bool_decide (code = "KeyD") then Some Right
  else None.

Definition handleKeyPress (isProcessingMove showTutorial : bool) (g : Game2048)
    (event : KeyEvent) (d1 d2 : Draw) : Game2048 :=
  if isProcessingMove || showTutorial
     || negb (bool_decide (powerupMode g = ModeNone)) then g
  else if gameOver g
          && negb (bool_decide (code event = "KeyN") || bool_decide (code event = "KeyR"))
  then g
  else
    match keyDirection (code event) with
    | Some direction => fst (processMove g direction d1)
    | None =>
        if bool_decide (code event = "KeyN") || bool_decide (code event = "KeyR") then
          startNewGame g d1 d2
        else if bool_decide (code event = "KeyZ") then
          if ctrlKey event || metaKey event then handleUndo g else g
        else if bool_decide (code event = "Escape") then
          if negb (bool_decide (powerupMode g = ModeNone)) then
            flush [setPowerupMode (λ _, ModeNone); setSelectedTiles (λ _, [])] g
          else g
        else g
    end.

(** *** The requests a player can make of the rules *)

Inductive Request : Type :=
  | ReqMove (direction : Direction) (d : Draw)
  | ReqUndo
  | ReqTileClick (row col : nat) (d1 d2 : Draw)
  | ReqNewGame (d1 d2 : Draw)
  | ReqSwapButton
  | ReqDeleteButton
  | ReqCancel.

(** One request applied to a state.  A tile click that raised leaves the
    state of its render in place.  The keyboard handler lets a move through
    only in mode [none] and while the game is not over; [perform] applies
    [processMove] on every state, which covers those. *)
Definition perform (g : Game2048) (r : Request) : Game2048 :=
  match r with
  | ReqMove direction d => fst (processMove g direction d)
  | ReqUndo => handleUndo g
  | ReqTileClick row col d1 d2 => default g (handleTileClick g row col d1 d2)
  | ReqNewGame d1 d2 => startNewGame g d1 d2
  | ReqSwapButton => swapButtonClick g
  | ReqDeleteButton => deleteButtonClick g
  | ReqCancel => cancelButtonClick g
  end.

(** ** Shapes and measures used by the statements *)

Definition wfLine (line : list Cell) : Prop := length line = GRID_SIZE.

Definition wfBoard (board : GameBoard) : Prop :=
  length board = GRID_SIZE ∧ Forall wfLine board.

(** The line number [k] of a board as [moveBoard] hands it to [moveLine]:
    index 0 is the edge the tiles travel to. *)
Definition lineOf (board : GameBoard) (direction : Direction) (k : nat) : list Cell :=
  match direction with
  | Left => nth k board []
  | Right => reverse (nth k board [])
  | Up => columnOf board k
  | Down => reverse (columnOf board k)
  end.

(** Sum of the tile values of a line and of a board. *)
Definition lineSum (line : list Cell) : Z := sumZ (filteredLine line).
Definition boardSum (board : GameBoard) : Z := sumZ (lineSum <$> board).

Definition cellValue (c : Cell) : Z := default 0%Z c.

(** Number of tiles of a board. *)
Definition tileCount (board : GameBoard) : nat :=
  sum_list ((λ row, length (filteredLine row)) <$> board).

(** The range of the three counters, and no swap mode without a swap left. *)
Definition countersInRange (g : Game2048) : Prop :=
  (0 <= undoCount g <= MAX_UNDO_COUNT)%Z
  ∧ (0 <= swapCount g <= MAX_SWAP_COUNT)%Z
  ∧ (0 <= deleteCount g <= MAX_DELETE_COUNT)%Z
  ∧ (powerupMode g = ModeSwap → 0 < swapCount g)%Z.

(** No two neighbouring values are equal. *)
Fixpoint adjacentDistinct (vs : list Z) : bool :=
  match vs with
  | [] => true
  | a :: tl =>
      match tl with
      | [] => true
      | b :: _ => negb (a =? b)%Z && adjacentDistinct tl
      end
  end.

(** A cell is empty or holds a value with the property [P]. *)
Definition cellSatisfies (P : Z → Prop) (c : Cell) : Prop :=
  match c with
  | Some v => P v
  | None => True
  end.

Definition tilesSatisfy (P : Z → Prop) (board : GameBoard) : Prop :=
  Forall (Forall (cellSatisfies P)) board.

(** The tile values of the game: 2, 4, 8, ... *)
Definition isTileValue (v : Z) : Prop := ∃ k : nat, v = (2 ^ Z.of_nat (S k))%Z.

(** 1 for a tile, 0 for an empty cell. *)
Definition cellCount (c : Cell) : nat := if c is Some _ then 1 else 0.

(** A 4x4 board whose tiles are all tile values. *)
Definition goodBoard (board : GameBoard) : Prop :=
  wfBoard board ∧ tilesSatisfy isTileValue board.

(** The board and every snapshot of the history are good boards. *)
Definition goodGame (g : Game2048) : Prop :=
  goodBoard (board g) ∧ Forall (λ s, goodBoard (gsBoard s)) (undoStack g).

(** ** Sample inputs *)

Definition packedBoard : GameBoard :=
  [[Some 2; Some 4; Some 2; Some 4]; [None; None; None; None];
   [Some 8; None; None; None]; [Some 16; Some 32; None; None]]%Z.

Definition sampleDraw : Draw := mkDraw (1 # 2) (19 # 20).

(** A board whose first row merges to 128 when moved left. *)
Definition mergeBoard : GameBoard :=
  [[Some 64; Some 64; None; None]; [None; None; None; None];
   [None; Some 2; None; None]; [None; None; None; None]]%Z.

(** A game as [startNewGame] leaves the counters, on [mergeBoard]. *)
Definition mergeGame : Game2048 :=
  mkGame mergeBoard 0 false false ModeNone [] [] 2 1 0.

(** The same on [packedBoard], which a move to the left does not change. *)
Definition packedGame : Game2048 :=
  mkGame packedBoard 0 false false ModeNone [] [] 2 1 0.


(** Delete mode on the same board. *)
Definition deleteModeGame : Game2048 :=
  mkGame packedBoard 0 false false ModeDelete [] [] 2 1 1.

(** A full board with no two equal neighbours. *)
Definition stuckBoard : GameBoard :=
  [[Some 2; Some 4; Some 2; Some 4]; [Some 4; Some 2; Some 4; Some 2];
   [Some 2; Some 4; Some 2; Some 4]; [Some 4; Some 2; Some 4; Some 2]]%Z.

(** Swap mode with the tile (0,0) selected and one swap left. *)
Definition swapReadyGame : Game2048 :=
  mkGame packedBoard 0 false false ModeSwap [(0, 0)] [] 2 1 0.

(** Delete mode on a board whose only tiles are two 2s. *)
Definition twoTwosBoard : GameBoard :=
  [[Some 2; None; None; None]; [None; None; None; None];
   [None; None; None; None]; [None; None; None; Some 2]]%Z.

Definition twoTwosGame : Game2048 :=
  mkGame twoTwosBoard 0 false false ModeDelete [] [] 2 1 1.

Definition escapeKey : KeyEvent := mkKeyEvent "Escape" false false.

(** Swap mode with nothing selected yet. *)
Definition swapModeGame : Game2048 :=
  mkGame packedBoard 0 false false ModeSwap [] [] 2 1 0.

(** [swapReadyGame] after the swap of (0,0) with (0,1). *)
Definition swappedGame : Game2048 :=
  mkGame [[Some 4; Some 2; Some 2; Some 4]; [None; None; None; None];
          [Some 8; None; None; None]; [Some 16; Some 32; None; None]]%Z
         0 false false ModeNone [] [mkGameState packedBoard 0] 2 0 0.

(** A board with 11 empty cells and a draw whose product with 11 is
    3 - 2^-52 exactly and 3 as a double. *)
Definition fiveTileBoard : GameBoard :=
  [[Some 2; Some 4; Some 2; Some 4]; [Some 8; None; None; None];
   [None; None; None; None]; [None; None; None; None]]%Z.

Definition roundingDraw : Draw :=
  mkDraw (1228254443828317 # 4503599627370496) (1 # 2).

(** [mergeGame] with a score of 50 and a full history of five snapshots. *)
Definition fullHistoryGame : Game2048 :=
  mkGame mergeBoard 50 false false ModeNone []
         [mkGameState packedBoard 0; mkGameState packedBoard 10;
          mkGameState packedBoard 20; mkGameState packedBoard 30;
          mkGameState packedBoard 40] 2 1 0.

(** Swap mode with the tile (0,0) selected, one swap left and a full
    history. *)
Definition fullHistorySwapGame : Game2048 :=
  mkGame packedBoard 50 false false ModeSwap [(0, 0)]
         [mkGameState mergeBoard 0; mkGameState mergeBoard 10;
          mkGameState mergeBoard 20; mkGameState mergeBoard 30;
          mkGameState mergeBoard 40] 2 1 0.

(** * Properties *)

(** ** Lists *)

Lemma list_pair_ind {A : Type} (P : list A → Prop) :
  P [] → (∀ a, P [a]) →
  (∀ a b rest, P rest → P (b :: rest) → P (a :: b :: rest)) →
  ∀ l, P l.
Proof.
  intros Hnil Hone Hstep l.
  assert (H : P l ∧ ∀ a, P (a :: l)).
  { induction l as [|b rest [IH1 IH2]]; split; auto. }
  exact (proj1 H).
Qed.

Lemma drop_nth_cons {A : Type} (d : A) (f : list A) (i : nat) :
  i < length f → drop i f = nth i f d :: drop (S i) f.
Proof.
  revert i. induction f as [|x f IH]; intros i Hi; simpl in *; [lia|].
  destruct i as [|i]; simpl; [by rewrite drop_0|].
  apply IH. lia.
Qed.

Lemma fillNulls_app (k : nat) (l : list Cell) :
  fillNulls k l = l ++ replicate k None.
Proof.
  revert l. induction k as [|k IH]; intros l; simpl.
  - by rewrite app_nil_r.
  - by rewrite IH, <- app_assoc.
Qed.

(** ** The line resolver *)

Lemma mergeLoop_spec (fuel : nat) (f : list Z) :
  ∀ (i : nat) (acc : list Cell) (sc : Z),
    i ≤ length f → length f - i ≤ fuel →
    mergeLoop fuel f i acc sc
    = (acc ++ (Some <$> slideMerge (drop i f)),
       (sc + sumZ (mergedValues (drop i f)))%Z).
Proof.
  induction fuel as [|fuel IH]; intros i acc sc Hi Hfuel.
  - assert (i = length f) as -> by lia.
    rewrite drop_all. simpl. by rewrite app_nil_r, Z.add_0_r.
  - simpl mergeLoop.
    destruct (Nat.ltb_spec i (length f)) as [Hlt|Hge].
    + rewrite (drop_nth_cons 0%Z f i Hlt).
      destruct (Nat.ltb_spec i (length f - 1)) as [Hlt2|Hge2]; simpl andb; cbv iota.
      * rewrite (drop_nth_cons 0%Z f (S i)) by lia.
        replace (i + 1) with (S i) by lia.
        simpl slideMerge. simpl mergedValues.
        destruct (Z.eqb_spec (nth i f 0%Z) (nth (S i) f 0%Z)) as [Heq|Hne].
        -- rewrite IH by lia.
           replace (i + 2) with (S (S i)) by lia.
           rewrite <- app_assoc. simpl. f_equal; [|unfold sumZ; simpl; lia].
           do 3 f_equal. lia.
        -- rewrite IH by lia.
           replace (i + 1) with (S i) by lia.
           rewrite (drop_nth_cons 0%Z f (S i)) by lia.
           by rewrite <- app_assoc.
      * rewrite IH by lia.
        replace (i + 1) with (S i) by lia.
        assert (S i = length f) as Hlast by lia.
        rewrite Hlast, drop_all. simpl.
        by rewrite <- app_assoc.
    + rewrite drop_ge by lia. simpl. by rewrite app_nil_r, Z.add_0_r.
Qed.

Lemma moveLine_spec (line : list Cell) :
  moveLine line
  = (resolvedLine (filteredLine line), sumZ (mergedValues (filteredLine line))).
Proof.
  unfold moveLine.
  rewrite (mergeLoop_spec _ (filteredLine line) 0 [] 0%Z) by lia.
  rewrite drop_0. simpl. rewrite fillNulls_app.
  unfold resolvedLine. by rewrite length_fmap.
Qed.

Lemma length_slideMerge (vs : list Z) : length (slideMerge vs) ≤ length vs.
Proof.
  induction vs as [|a|a b rest IH1 IH2] using list_pair_ind; simpl; try lia.
  destruct (a =? b)%Z; simpl in *; lia.
Qed.

Lemma length_filteredLine (line : list Cell) :
  length (filteredLine line) ≤ length line.
Proof. induction line as [|[v|] line IH]; simpl; lia. Qed.

Lemma sumZ_slideMerge (vs : list Z) : sumZ (slideMerge vs) = sumZ vs.
Proof.
  induction vs as [|a|a b rest IH1 IH2] using list_pair_ind; simpl; try done.
  destruct (Z.eqb_spec a b) as [->|Hne].
  - unfold sumZ in *. simpl. lia.
  - unfold sumZ in *. simpl in *. lia.
Qed.

Lemma filteredLine_resolved (vs : list Z) (k : nat) :
  filteredLine ((Some <$> vs) ++ replicate k None) = vs.
Proof.
  induction vs as [|v vs IH]; simpl.
  - induction k as [|k IHk]; simpl; done.
  - f_equal. exact IH.
Qed.

Lemma length_moveLine (line : list Cell) :
  wfLine line → length (fst (moveLine line)) = GRID_SIZE.
Proof.
  unfold wfLine. intros Hlen. rewrite moveLine_spec. simpl. unfold resolvedLine.
  rewrite length_app, length_fmap, length_replicate.
  pose proof (length_slideMerge (filteredLine line)).
  pose proof (length_filteredLine line). lia.
Qed.

Lemma lineSum_moveLine (line : list Cell) :
  lineSum (fst (moveLine line)) = lineSum line.
Proof.
  rewrite moveLine_spec. simpl. unfold lineSum, resolvedLine.
  by rewrite filteredLine_resolved, sumZ_slideMerge.
Qed.

(** ** Comparison of lines *)

Lemma strictEq_true (a b : Cell) : strictEq a b = true ↔ a = b.
Proof. unfold strictEq. by rewrite bool_decide_eq_true. Qed.

Lemma everyFrom_spec (arr2 : list Cell) (arr1 : list Cell) :
  ∀ idx, idx + length arr1 ≤ length arr2 →
    everyFrom (λ val i, strictEq val (nth i arr2 None)) idx arr1 = true
    ↔ arr1 = take (length arr1) (drop idx arr2).
Proof.
  induction arr1 as [|val rest IH]; intros idx Hlen.
  - by rewrite take_0.
  - simpl in Hlen. rewrite (drop_nth_cons None arr2 idx) by lia. simpl.
    rewrite andb_true_iff, strictEq_true, IH by lia.
    split.
    + intros [-> <-]. done.
    + intros [= Hv Hrest]. done.
Qed.

Lemma arraysEqual_spec (arr1 arr2 : list Cell) :
  arraysEqual arr1 arr2 = true ↔ arr1 = arr2.
Proof.
  unfold arraysEqual, every. rewrite andb_true_iff, Nat.eqb_eq.
  split.
  - intros [Hlen Hall]. apply everyFrom_spec in Hall; [|lia].
    rewrite drop_0, Hlen, firstn_all in Hall. done.
  - intros ->. split; [done|]. apply everyFrom_spec; [lia|].
    by rewrite drop_0, firstn_all.
Qed.

Lemma wfBoard_inv (b : GameBoard) :
  wfBoard b →
  ∃ a0 a1 a2 a3 b0 b1 b2 b3 c0 c1 c2 c3 d0 d1 d2 d3 : Cell,
    b = [[a0; a1; a2; a3]; [b0; b1; b2; b3]; [c0; c1; c2; c3]; [d0; d1; d2; d3]].
Proof.
  intros [Hlen Hrows].
  destruct b as [|r0 [|r1 [|r2 [|r3 [|]]]]]; try discriminate Hlen.
  repeat match goal with
  | H : Forall _ (_ :: _) |- _ => apply Forall_cons in H; destruct H as [? H]
  end.
  repeat match goal with
  | H : wfLine ?r |- _ =>
      destruct r as [|? [|? [|? [|? [|]]]]]; try discriminate H; clear H
  end.
  by repeat eexists.
Qed.

Lemma wfBoard_intro (a0 a1 a2 a3 b0 b1 b2 b3 c0 c1 c2 c3 d0 d1 d2 d3 : Cell) :
  wfBoard [[a0; a1; a2; a3]; [b0; b1; b2; b3]; [c0; c1; c2; c3]; [d0; d1; d2; d3]].
Proof. split; [done|]. by repeat constructor. Qed.

Lemma wfBoard_packedBoard : wfBoard packedBoard.
Proof. split; [done|by repeat constructor]. Qed.

Ltac board_cells b H :=
  destruct (wfBoard_inv b H)
    as (?a&?a&?a&?a&?b&?b&?b&?b&?c&?c&?c&?c&?d&?d&?d&?d&->).

(** ** The move engine on a 4x4 board *)

Ltac resolve_lines :=
  repeat match goal with
  | |- context [moveLine ?l] =>
      let nl := fresh "nl" in
      let sc := fresh "sc" in
      let E := fresh "E" in
      let Hl := fresh "Hl" in
      pose proof (length_moveLine l eq_refl) as Hl;
      destruct (moveLine l) as [nl sc] eqn:E; simpl in Hl;
      destruct nl as [|? [|? [|? [|? [|]]]]]; try discriminate Hl; clear Hl;
      cbv beta iota
  end.

Ltac run_moveBoard :=
  unfold moveBoard, forRange, lineOf, GRID_SIZE; cbn [seq foldl existsb fmap list_fmap]; cbv beta iota;
  resolve_lines; cbn -[arraysEqual Z.add].

Ltac small_index k Hk :=
  unfold GRID_SIZE in Hk; destruct k as [|[|[|[|]]]]; try lia; clear Hk.

Lemma moveBoard_wf (b : GameBoard) (d : Direction) :
  wfBoard b → wfBoard (newBoard (moveBoard b d)).
Proof.
  intros H. board_cells b H.
  destruct d; run_moveBoard; apply wfBoard_intro.
Qed.

Lemma moveBoard_lineOf (b : GameBoard) (d : Direction) (k : nat) :
  wfBoard b → k < GRID_SIZE →
  lineOf (newBoard (moveBoard b d)) d k = fst (moveLine (lineOf b d k)).
Proof.
  intros H Hk. board_cells b H. small_index k Hk;
  destruct d; run_moveBoard; reflexivity.
Qed.

Lemma arraysEqual_reverse (l1 l2 : list Cell) :
  arraysEqual (reverse l1) l2 = arraysEqual l1 (reverse l2).
Proof.
  apply eq_true_iff_eq. rewrite !arraysEqual_spec.
  split; intros H.
  - by rewrite <- H, reverse_involutive.
  - by rewrite H, reverse_involutive.
Qed.


Lemma arraysEqual_rev4 (w x y z a b c d : Cell) :
  arraysEqual [z; y; x; w] [a; b; c; d] = arraysEqual [w; x; y; z] [d; c; b; a].
Proof. exact (arraysEqual_reverse [w; x; y; z] [a; b; c; d]). Qed.

Lemma moveBoard_moved (b : GameBoard) (d : Direction) :
  wfBoard b →
  moved (moveBoard b d)
  = existsb (λ k, negb (arraysEqual (fst (moveLine (lineOf b d k))) (lineOf b d k)))
            (seq 0 GRID_SIZE).
Proof.
  intros H. board_cells b H.
  destruct d; run_moveBoard;
    repeat match goal with
    | E : moveLine _ = ([?w; ?x; ?y; ?z], _)
      |- context [arraysEqual [?z; ?y; ?x; ?w] [?a; ?b; ?c; ?d]] =>
        rewrite (arraysEqual_rev4 w x y z a b c d); clear E
    end;
    repeat match goal with
    | |- context [arraysEqual ?l1 ?l2] => destruct (arraysEqual l1 l2)
    end; reflexivity.
Qed.

Lemma moveBoard_score (b : GameBoard) (d : Direction) :
  wfBoard b →
  moveScore (moveBoard b d)
  = sumZ ((λ k, snd (moveLine (lineOf b d k))) <$> seq 0 GRID_SIZE).
Proof.
  intros H. board_cells b H.
  destruct d; run_moveBoard; unfold sumZ; cbn [foldr]; lia.
Qed.

Lemma lineOf_ext (b1 b2 : GameBoard) (d : Direction) :
  wfBoard b1 → wfBoard b2 →
  (∀ k, k < GRID_SIZE → lineOf b1 d k = lineOf b2 d k) → b1 = b2.
Proof.
  intros H1 H2 Hk. board_cells b1 H1. board_cells b2 H2.
  pose proof (Hk 0 ltac:(unfold GRID_SIZE; lia)) as K0.
  pose proof (Hk 1 ltac:(unfold GRID_SIZE; lia)) as K1.
  pose proof (Hk 2 ltac:(unfold GRID_SIZE; lia)) as K2.
  pose proof (Hk 3 ltac:(unfold GRID_SIZE; lia)) as K3.
  destruct d; cbn in K0, K1, K2, K3; congruence.
Qed.

Lemma lineSum_cons (c : Cell) (l : list Cell) :
  lineSum (c :: l) = (cellValue c + lineSum l)%Z.
Proof. destruct c; reflexivity. Qed.

Lemma boardSum_lines (b : GameBoard) (d : Direction) :
  wfBoard b →
  boardSum b = sumZ ((λ k, lineSum (lineOf b d k)) <$> seq 0 GRID_SIZE).
Proof.
  intros H. board_cells b H.
  destruct d; unfold boardSum, sumZ; cbn -[lineSum Z.add];
    rewrite ?lineSum_cons; unfold lineSum, sumZ; cbn [filteredLine foldr]; lia.
Qed.

Lemma arraysEqual_false (arr1 arr2 : list Cell) :
  arraysEqual arr1 arr2 = false ↔ arr1 ≠ arr2.
Proof.
  rewrite <- arraysEqual_spec. destruct (arraysEqual arr1 arr2); split; congruence.
Qed.

Lemma moveBoard_unchanged (b : GameBoard) (d : Direction) :
  wfBoard b →
  (∀ k, k < GRID_SIZE → fst (moveLine (lineOf b d k)) = lineOf b d k) →
  newBoard (moveBoard b d) = b.
Proof.
  intros Hwf Hsame. apply (lineOf_ext _ _ d); [by apply moveBoard_wf|done|].
  intros k Hk. by rewrite moveBoard_lineOf, Hsame.
Qed.

Lemma moved_true_iff (b : GameBoard) (d : Direction) :
  wfBoard b →
  moved (moveBoard b d) = true
  ↔ ∃ k, k < GRID_SIZE ∧ fst (moveLine (lineOf b d k)) ≠ lineOf b d k.
Proof.
  intros Hwf. rewrite moveBoard_moved by done. rewrite existsb_exists.
  split.
  - intros (k & Hin & Hk). exists k. apply in_seq in Hin.
    rewrite negb_true_iff, arraysEqual_false in Hk. split; [lia|done].
  - intros (k & Hlt & Hk). exists k. split; [apply in_seq; lia|].
    by rewrite negb_true_iff, arraysEqual_false.
Qed.

(** ** The claims on the line resolver and the move engine *)

(** C3: for every line of 4 cells, [moveLine] keeps the non-empty values
    in their order, packs them toward index 0, merges strictly left to
    right (a value equal to the next not yet merged value makes one cell
    of double the value, scanning resumes after the pair, so no cell
    merges twice and nothing is scanned again), fills the trailing slots
    with empty cells, and returns as score the sum of the newly created
    merged values; [2,2,2,null] resolves to [4,2,null,null] with score 4. *)
Theorem moveLine_resolves (line : list Cell) :
  wfLine line →
  let vs := filteredLine line in
  (Some <$> vs) = filter (λ cell, cell ≠ None) line
  ∧ fst (moveLine line)
    = (Some <$> slideMerge vs) ++ replicate (GRID_SIZE - length (slideMerge vs)) None
  ∧ length (fst (moveLine line)) = GRID_SIZE
  ∧ snd (moveLine line) = sumZ (mergedValues vs)
  ∧ moveLine [Some 2; Some 2; Some 2; None]%Z = ([Some 4; Some 2; None; None]%Z, 4%Z).
Proof.
  intros Hwf vs. repeat split.
  - subst vs. clear Hwf. induction line as [|[v|] line IH]; simpl.
    + done.
    + rewrite filter_cons_True by done. by rewrite <- IH.
    + rewrite filter_cons_False by (intros H; by apply H). done.
  - by rewrite moveLine_spec.
  - by apply length_moveLine.
  - by rewrite moveLine_spec.
Qed.

Lemma moveLine_resolves_witness :
  wfLine [Some 2; None; Some 2; Some 4]%Z
  ∧ fst (moveLine [Some 2; None; Some 2; Some 4]%Z) = [Some 4; Some 4; None; None]%Z
  ∧ snd (moveLine [Some 2; None; Some 2; Some 4]%Z) = 4%Z.
Proof.
  split; [reflexivity|].
  destruct (moveLine_resolves [Some 2; None; Some 2; Some 4]%Z eq_refl)
    as (_ & Hline & _ & Hscore & _).
  split; [exact Hline | exact Hscore].
Defined.

(** C4: for every grid and direction, [moved] is true exactly when the
    resolved sequence of at least one of the four lines differs from the
    line it was resolved from, and when no line changes the resulting
    grid is the input grid. *)
Theorem moveBoard_changed_iff (b : GameBoard) (d : Direction) :
  wfBoard b →
  (moved (moveBoard b d) = true
   ↔ ∃ k, k < GRID_SIZE ∧ fst (moveLine (lineOf b d k)) ≠ lineOf b d k)
  ∧ ((∀ k, k < GRID_SIZE → fst (moveLine (lineOf b d k)) = lineOf b d k) →
     newBoard (moveBoard b d) = b)
  ∧ (moved (moveBoard b d) = false → newBoard (moveBoard b d) = b).
Proof.
  intros Hwf. split; [by apply moved_true_iff|]. split.
  - by apply moveBoard_unchanged.
  - intros Hmoved. apply moveBoard_unchanged; [done|].
    intros k Hk.
    destruct (decide (fst (moveLine (lineOf b d k)) = lineOf b d k)) as [|Hne];
      [done|].
    assert (moved (moveBoard b d) = true) as Hcontra
      by (apply moved_true_iff; eauto).
    congruence.
Qed.

Lemma moveBoard_changed_iff_witness :
  wfBoard packedBoard
  ∧ moved (moveBoard packedBoard Left) = false
  ∧ newBoard (moveBoard packedBoard Left) = packedBoard.
Proof.
  split; [exact wfBoard_packedBoard|].
  destruct (moveBoard_changed_iff packedBoard Left wfBoard_packedBoard)
    as (_ & _ & Hsame).
  split; [reflexivity | exact (Hsame eq_refl)].
Defined.

(** C10: for every line of 4 cells the non-empty values of the output of
    [moveLine] sum to the same total as those of its input, and so every
    directional move leaves the sum of all tile values of the board as it
    was, before any tile is spawned. *)
Theorem move_preserves_sum (line : list Cell) (b : GameBoard) (d : Direction) :
  wfLine line → wfBoard b →
  lineSum (fst (moveLine line)) = lineSum line
  ∧ boardSum (newBoard (moveBoard b d)) = boardSum b.
Proof.
  intros _ Hwf. split; [apply lineSum_moveLine|].
  rewrite (boardSum_lines _ d) by (by apply moveBoard_wf).
  rewrite (boardSum_lines b d) by done.
  f_equal. apply list_fmap_ext. intros i k Hik.
  apply lookup_seq in Hik as [-> Hlt].
  rewrite moveBoard_lineOf by (done || (simpl; lia)).
  apply lineSum_moveLine.
Qed.

Lemma move_preserves_sum_witness :
  wfLine [Some 2; Some 2; Some 4; Some 4]%Z ∧ wfBoard packedBoard
  ∧ lineSum (fst (moveLine [Some 2; Some 2; Some 4; Some 4]%Z)) = 12%Z
  ∧ boardSum (newBoard (moveBoard packedBoard Up)) = 68%Z.
Proof.
  split; [reflexivity|]. split; [exact wfBoard_packedBoard|].
  destruct (move_preserves_sum [Some 2; Some 2; Some 4; Some 4]%Z packedBoard Up
              eq_refl wfBoard_packedBoard) as [Hline Hboard].
  split; [exact Hline | exact Hboard].
Defined.

(** ** The tile spawner *)

Lemma nth_insert {A : Type} (l : list A) (i j : nat) (x d : A) :
  nth j (<[i:=x]> l) d = if decide (i = j ∧ i < length l) then x else nth j l d.
Proof.
  rewrite !nth_lookup, list_lookup_insert. by case_decide.
Qed.

Lemma cellAt_setCell (b : GameBoard) (r c : nat) (v : Cell) :
  r < length b → c < length (nth r b []) → cellAt (setCell b r c v) r c = v.
Proof.
  intros Hr Hc. unfold cellAt, setCell.
  rewrite nth_insert, decide_True by done.
  by rewrite nth_insert, decide_True.
Qed.

Lemma cellAt_setCell_ne (b : GameBoard) (r c r' c' : nat) (v : Cell) :
  (r', c') ≠ (r, c) → cellAt (setCell b r c v) r' c' = cellAt b r' c'.
Proof.
  intros Hne. unfold cellAt, setCell. rewrite nth_insert.
  case_decide as H; [|done]. destruct H as [<- Hr].
  rewrite nth_insert. case_decide as H2; [|done]. destruct H2 as [<- _]. done.
Qed.

Lemma forRange_S {S : Type} (n : nat) (body : nat → S → S) (init : S) :
  forRange (Datatypes.S n) body init = body n (forRange n body init).
Proof.
  unfold forRange. rewrite seq_S, foldl_app. done.
Qed.

Lemma forRange_push {A : Type} (n : nat) (p : nat → bool) (f : nat → A) (acc : list A) :
  forRange n (λ i acc, if p i then acc ++ [f i] else acc) acc
  = acc ++ (f <$> filter (λ i, p i = true) (seq 0 n)).
Proof.
  induction n as [|n IH].
  - unfold forRange. simpl. by rewrite app_nil_r.
  - rewrite forRange_S, IH, seq_S, filter_app, fmap_app, app_assoc. simpl.
    destruct (p n) eqn:Hp.
    + rewrite filter_cons_True by done. done.
    + rewrite filter_cons_False by congruence. simpl. by rewrite app_nil_r.
Qed.

Lemma forRange_append {A : Type} (n : nat) (g : nat → list A) (acc : list A) :
  forRange n (λ i acc, acc ++ g i) acc = acc ++ mjoin (g <$> seq 0 n).
Proof.
  induction n as [|n IH].
  - unfold forRange. simpl. by rewrite app_nil_r.
  - rewrite forRange_S, IH, seq_S, fmap_app, join_app. simpl.
    by rewrite app_nil_r, app_assoc.
Qed.

Lemma forRange_ext {S : Type} (n : nat) (f g : nat → S → S) (init : S) :
  (∀ i st, f i st = g i st) → forRange n f init = forRange n g init.
Proof.
  intros H. induction n as [|n IH]; [done|]. by rewrite !forRange_S, IH, H.
Qed.

Lemma emptyCells_closed (b : GameBoard) :
  emptyCells b
  = mjoin ((λ row, pair row <$> filter (λ col, strictEq (cellAt b row col) None = true)
                                        (seq 0 GRID_SIZE))
            <$> seq 0 GRID_SIZE).
Proof.
  unfold emptyCells.
  rewrite (forRange_ext _ _ (λ row acc, acc ++ (pair row <$>
             filter (λ col, strictEq (cellAt b row col) None = true) (seq 0 GRID_SIZE)))).
  - by rewrite forRange_append.
  - intros row st. apply forRange_push.
Qed.

Lemma elem_of_emptyCells (b : GameBoard) (r c : nat) :
  (r, c) ∈ emptyCells b ↔ r < GRID_SIZE ∧ c < GRID_SIZE ∧ cellAt b r c = None.
Proof.
  rewrite emptyCells_closed, list_elem_of_join. split.
  - intros (l & Hin & Hl). apply list_elem_of_fmap in Hl as (row & -> & Hrow).
    apply list_elem_of_fmap in Hin as (col & [= -> ->] & Hcol).
    apply list_elem_of_filter in Hcol as [Hnone Hcol].
    apply elem_of_seq in Hrow, Hcol. apply strictEq_true in Hnone.
    repeat split; (lia || done).
  - intros (Hr & Hc & Hnone). eexists. split.
    2:{ apply list_elem_of_fmap. exists r. split; [done|]. apply elem_of_seq. lia. }
    apply list_elem_of_fmap. exists c. split; [done|].
    apply list_elem_of_filter. split; [by apply strictEq_true|].
    apply elem_of_seq. lia.
Qed.

Lemma pow2_pos (e : Z) : (0 < pow2 e)%Q.
Proof. by apply Qpower_0_lt. Qed.

Lemma pow2_plus (a b : Z) : (pow2 (a + b) == pow2 a * pow2 b)%Q.
Proof. by apply Qpower_plus. Qed.

Lemma binade_le (x : Q) : (0 < x)%Q → (pow2 (binade x) <= x)%Q.
Proof.
  intros Hx. unfold binade.
  destruct (Qle_bool _ x) eqn:E; [by apply Qle_bool_iff|].
  destruct x as [a b]. cbn [Qnum Qden] in *.
  assert (0 < a)%Z as Ha by (unfold Qlt in Hx; simpl in Hx; lia).
  pose proof (Z.log2_spec a Ha) as [Hla _].
  pose proof (Z.log2_spec (Z.pos b) ltac:(lia)) as [_ Hlb].
  pose proof (Z.log2_nonneg a) as Hla0.
  pose proof (Z.log2_nonneg (Z.pos b)) as Hlb0.
  replace (Z.log2 a - Z.log2 (Z.pos b) - 1)%Z
    with (Z.log2 a - Z.succ (Z.log2 (Z.pos b)))%Z by lia.
  unfold pow2. rewrite Qpower_minus by done.
  change 2%Q with (inject_Z 2).
  rewrite <- !Zpower_Qpower by lia.
  set (A := (2 ^ Z.log2 a)%Z) in *. set (B := (2 ^ Z.succ (Z.log2 (Z.pos b)))%Z) in *.
  apply Qle_shift_div_r.
  - change 0%Q with (inject_Z 0). rewrite <- Zlt_Qlt. lia.
  - unfold Qle. simpl. nia.
Qed.

Lemma roundHalfEven_error (m : Q) :
  (m - (1 # 2) <= inject_Z (roundHalfEven m))%Q
  ∧ (inject_Z (roundHalfEven m) <= m + (1 # 2))%Q.
Proof.
  unfold roundHalfEven.
  pose proof (Qfloor_le m) as Hlo. pose proof (Qlt_floor m) as Hhi.
  rewrite inject_Z_plus in Hhi. change (inject_Z 1) with 1%Q in Hhi.
  destruct (Qcompare_spec (m - inject_Z (Qfloor m)) (1 # 2)) as [He|Hl|Hg].
  - destruct (Z.even _); rewrite ?inject_Z_plus; change (inject_Z 1) with 1%Q;
      split; lra.
  - split; lra.
  - rewrite inject_Z_plus. change (inject_Z 1) with 1%Q. split; lra.
Qed.

Lemma roundHalfEven_nonneg (m : Q) : (0 <= m)%Q → (0 <= roundHalfEven m)%Z.
Proof.
  intros Hm. unfold roundHalfEven.
  assert (0 <= Qfloor m)%Z as Hf.
  { rewrite <- (Qfloor_Z 0). by apply Qfloor_resp_le. }
  repeat case_match; lia.
Qed.

(** The rounding error is at most half a unit in the last place: a
    relative 2^-53, or 2^-1075 below the normal range. *)
Lemma roundPositive_error (x : Q) :
  (0 < x)%Q →
  (x - x * pow2 (-53) - pow2 (-1075) <= roundPositive x)%Q
  ∧ (roundPositive x <= x + x * pow2 (-53) + pow2 (-1075))%Q.
Proof.
  intros Hx. unfold roundPositive.
  set (e := Z.max (binade x) (-1022)).
  set (u := pow2 (e - 52)).
  assert (0 < u)%Q as Hu by apply pow2_pos.
  assert (u * (1 # 2) <= x * pow2 (-53) + pow2 (-1075))%Q as Hhalf.
  { pose proof (pow2_pos (-53)) as H53. pose proof (pow2_pos (-1075)) as H1075.
    destruct (Z.max_spec (binade x) (-1022)) as [[_ He]|[_ He]]; fold e in He.
    - assert (u * (1 # 2) == pow2 (-1075))%Q as ->.
      { subst u. rewrite He. reflexivity. }
      assert (0 <= x * pow2 (-53))%Q by (apply Qmult_le_0_compat; lra). lra.
    - assert (u * (1 # 2) == pow2 (binade x) * pow2 (-53))%Q as ->.
      { subst u. rewrite He.
        replace (binade x - 52)%Z with (binade x + -52)%Z by lia.
        rewrite pow2_plus.
        assert (pow2 (-52) * (1 # 2) == pow2 (-53))%Q as <- by reflexivity.
        ring. }
      pose proof (binade_le x Hx) as Hb.
      assert (pow2 (binade x) * pow2 (-53) <= x * pow2 (-53))%Q.
      { apply Qmult_le_compat_r; lra. }
      lra. }
  destruct (roundHalfEven_error (x / u)) as [Hlo Hhi].
  set (R := inject_Z (roundHalfEven (x / u))) in *.
  assert (x == x / u * u)%Q as Hxu by (field; lra).
  assert ((x / u - (1 # 2)) * u <= R * u)%Q as Hlo'
    by (apply Qmult_le_compat_r; lra).
  assert (R * u <= (x / u + (1 # 2)) * u)%Q as Hhi'
    by (apply Qmult_le_compat_r; lra).
  set (m := (x / u)%Q) in *.
  assert ((m - (1 # 2)) * u == m * u - u * (1 # 2))%Q as E1 by ring.
  assert ((m + (1 # 2)) * u == m * u + u * (1 # 2))%Q as E2 by ring.
  rewrite E1 in Hlo'. rewrite E2 in Hhi'. split; lra.
Qed.

Lemma roundPositive_nonneg (x : Q) : (0 <= x)%Q → (0 <= roundPositive x)%Q.
Proof.
  intros Hx. unfold roundPositive.
  set (u := pow2 _). assert (0 < u)%Q as Hu by apply pow2_pos.
  apply Qmult_le_0_compat; [|lra].
  change 0%Q with (inject_Z 0). rewrite <- Zle_Qle.
  apply roundHalfEven_nonneg. apply Qle_shift_div_l; [done|]. lra.
Qed.

Lemma roundDouble_nonneg (x : Q) : (0 <= x)%Q → (0 <= roundDouble x)%Q.
Proof.
  intros Hx. unfold roundDouble.
  destruct (Qcompare_spec x 0) as [He|Hl|Hg]; [lra|lra|].
  by apply roundPositive_nonneg.
Qed.

Lemma roundDouble_error (x : Q) :
  (0 <= x)%Q →
  (x - x * pow2 (-53) - pow2 (-1075) <= roundDouble x)%Q
  ∧ (roundDouble x <= x + x * pow2 (-53) + pow2 (-1075))%Q.
Proof.
  intros Hx. unfold roundDouble.
  pose proof (pow2_pos (-53)) as H53. pose proof (pow2_pos (-1075)) as H1075.
  destruct (Qcompare_spec x 0) as [He|Hl|Hg]; [|lra|by apply roundPositive_error].
  rewrite He. split; lra.
Qed.

Lemma Qfloor_iff (q : Q) (k : Z) :
  Qfloor q = k ↔ (inject_Z k <= q)%Q ∧ (q < inject_Z (k + 1))%Q.
Proof.
  split.
  - intros <-. split; [apply Qfloor_le | apply Qlt_floor].
  - intros [Hle Hlt].
    assert (k <= Qfloor q)%Z as H1.
    { rewrite <- (Qfloor_Z k). by apply Qfloor_resp_le. }
    assert (Qfloor q < k + 1)%Z as H2.
    { rewrite Zlt_Qlt. eapply Qle_lt_trans; [apply Qfloor_le|done]. }
    lia.
Qed.

Lemma randomIndex_iff (r : Q) (n k : nat) :
  (0 <= r)%Q →
  randomIndex r n = k
  ↔ (inject_Z (Z.of_nat k) <= roundDouble (r * inject_Z (Z.of_nat n)))%Q
    ∧ (roundDouble (r * inject_Z (Z.of_nat n)) < inject_Z (Z.of_nat k + 1))%Q.
Proof.
  intros Hr. unfold randomIndex. rewrite <- Qfloor_iff.
  assert (0 <= Qfloor (roundDouble (r * inject_Z (Z.of_nat n))))%Z as Hpos.
  { rewrite <- (Qfloor_Z 0). apply Qfloor_resp_le. apply roundDouble_nonneg.
    apply Qmult_le_0_compat; [done|]. change 0%Q with (inject_Z 0).
    rewrite <- Zle_Qle. lia. }
  lia.
Qed.

Lemma pow2_53 : pow2 (-53) = (1 # 9007199254740992)%Q.
Proof. reflexivity. Qed.

Lemma randomIndex_lt (r : Q) (n : nat) :
  (0 <= r)%Q → (r <= maxDraw)%Q → 0 < n → randomIndex r n < n.
Proof.
  intros H0 H1 Hn. unfold randomIndex.
  set (N := inject_Z (Z.of_nat n)).
  assert (1 <= N)%Q as HN.
  { subst N. change 1%Q with (inject_Z 1). rewrite <- Zle_Qle. lia. }
  assert (0 <= r * N)%Q as Hx by (apply Qmult_le_0_compat; lra).
  destruct (roundDouble_error (r * N) Hx) as [_ Hhi].
  assert (r * N <= maxDraw * N)%Q as Hmax by (apply Qmult_le_compat_r; lra).
  assert (pow2 (-1075) < (1 # 9007199254740992) * (1 # 9007199254740992))%Q as Htiny
    by (by vm_compute).
  unfold maxDraw in Hmax. rewrite pow2_53 in *.
  assert (Qfloor (roundDouble (r * N)) < Z.of_nat n)%Z as Hlt.
  { rewrite Zlt_Qlt. eapply Qle_lt_trans; [apply Qfloor_le|]. fold N.
    set (x := (r * N)%Q) in *. set (t := pow2 (-1075)) in *. clearbody x t.
    assert ((1 - (1 # 9007199254740992)) * N == N - N * (1 # 9007199254740992))%Q
      as E by ring.
    rewrite E in Hmax. lra. }
  lia.
Qed.

(** Away from the rounding error, index [k] is chosen on the [k]-th of
    [n] equal parts of the draw. *)
Lemma randomIndex_part (r : Q) (n k : nat) :
  (0 <= r)%Q →
  let x := (r * inject_Z (Z.of_nat n))%Q in
  (inject_Z (Z.of_nat k) <= x - x * pow2 (-53) - pow2 (-1075))%Q →
  (x + x * pow2 (-53) + pow2 (-1075) < inject_Z (Z.of_nat k + 1))%Q →
  randomIndex r n = k.
Proof.
  intros Hr x Hlo Hhi. apply randomIndex_iff; [done|]. fold x.
  assert (0 <= x)%Q as Hx.
  { apply Qmult_le_0_compat; [done|]. change 0%Q with (inject_Z 0).
    rewrite <- Zle_Qle. lia. }
  destruct (roundDouble_error x Hx). split; lra.
Qed.

Lemma binade_lt (x : Q) : (0 < x)%Q → (x < pow2 (binade x + 1))%Q.
Proof.
  intros Hx. unfold binade.
  destruct (Qle_bool _ x) eqn:E.
  2:{ replace (_ - 1 + 1)%Z with (Z.log2 (Qnum x) - Z.log2 (Z.pos (Qden x)))%Z by lia.
      apply Qnot_le_lt. intros Hle. apply Qle_bool_iff in Hle. congruence. }
  clear E. destruct x as [a b]. cbn [Qnum Qden] in *.
  assert (0 < a)%Z as Ha by (unfold Qlt in Hx; simpl in Hx; lia).
  pose proof (Z.log2_spec a Ha) as [_ Hla].
  pose proof (Z.log2_spec (Z.pos b) ltac:(lia)) as [Hlb _].
  pose proof (Z.log2_nonneg a) as Hla0.
  pose proof (Z.log2_nonneg (Z.pos b)) as Hlb0.
  replace (Z.log2 a - Z.log2 (Z.pos b) + 1)%Z
    with (Z.succ (Z.log2 a) - Z.log2 (Z.pos b))%Z by lia.
  unfold pow2. rewrite Qpower_minus by done.
  change 2%Q with (inject_Z 2).
  rewrite <- !Zpower_Qpower by lia.
  set (A := (2 ^ Z.succ (Z.log2 a))%Z) in *. set (B := (2 ^ Z.log2 (Z.pos b))%Z) in *.
  apply Qlt_shift_div_l.
  - change 0%Q with (inject_Z 0). rewrite <- Zlt_Qlt. lia.
  - unfold Qlt. simpl. nia.
Qed.

(** A double below 1 is at most [maxDraw]. *)
Lemma double_below_one (r : Q) :
  (0 <= r)%Q → (r < 1)%Q → (roundDouble r == r)%Q → (r <= maxDraw)%Q.
Proof.
  intros H0 H1 Hfix. unfold roundDouble in Hfix.
  assert (0 < maxDraw)%Q as Hmax by (by vm_compute).
  destruct (Qcompare_spec r 0) as [He|Hl|Hg]; [lra|lra|].
  pose proof (binade_le r Hg) as Hle. pose proof (binade_lt r Hg) as Hlt.
  assert (binade r <= -1)%Z as Hb.
  { destruct (Z_le_gt_dec (binade r) (-1)) as [|Hpos]; [done|]. exfalso.
    assert (pow2 0 <= pow2 (binade r))%Q as Hmono
      by (apply Qpower_le_compat_l; [lia|done]).
    change (pow2 0) with 1%Q in Hmono. lra. }
  destruct (Z_le_gt_dec (binade r) (-2)) as [Hsmall|Hbig].
  - assert (pow2 (binade r + 1) <= pow2 (-1))%Q as Hmono
      by (apply Qpower_le_compat_l; [lia|done]).
    assert (pow2 (-1) <= maxDraw)%Q by (by vm_compute). lra.
  - assert (binade r = (-1)%Z) as Hb1 by lia.
    unfold roundPositive in Hfix. rewrite Hb1 in Hfix.
    change (pow2 (Z.max (-1) (-1022) - 52)) with (1 # 9007199254740992)%Q in Hfix.
    set (R := roundHalfEven _) in Hfix.
    assert (R < 9007199254740992)%Z as HR.
    { rewrite Zlt_Qlt. change (inject_Z 9007199254740992) with (9007199254740992 # 1)%Q.
      set (q := inject_Z R) in *. clearbody q. lra. }
    assert (inject_Z R <= inject_Z 9007199254740991)%Q as HR'
      by (rewrite <- Zle_Qle; lia).
    assert (maxDraw == (9007199254740991 # 1) * (1 # 9007199254740992))%Q as ->
      by reflexivity.
    change (inject_Z 9007199254740991) with (9007199254740991 # 1)%Q in HR'.
    set (q := inject_Z R) in *. clearbody q. lra.
Qed.

(** No double lies between 9/10 and the double nearest to it, so on
    doubles [r < 0.9] is [r < 9/10]. *)
Lemma double_below_nine_tenths (r : Q) :
  (0 <= r)%Q → (roundDouble r == r)%Q →
  (r < 9 # 10)%Q ↔ (r < roundDouble (9 # 10))%Q.
Proof.
  intros H0 Hfix.
  assert (roundDouble (9 # 10) == 8106479329266893 # 9007199254740992)%Q as ->
    by reflexivity.
  split; [intros; lra|]. intros Hlt.
  destruct (Qlt_le_dec r (9 # 10)) as [|Hge]; [done|exfalso].
  unfold roundDouble in Hfix.
  destruct (Qcompare_spec r 0) as [He|Hl|Hg]; [lra|lra|].
  pose proof (binade_le r Hg) as Hle. pose proof (binade_lt r Hg) as Hlt'.
  assert (binade r = (-1)%Z) as Hb.
  { destruct (Z_le_gt_dec (binade r) (-2)) as [Hsmall|Hbig].
    - assert (pow2 (binade r + 1) <= pow2 (-1))%Q as Hmono
        by (apply Qpower_le_compat_l; [lia|done]).
      change (pow2 (-1)) with (1 # 2)%Q in Hmono. lra.
    - destruct (Z_le_gt_dec (binade r) (-1)) as [|Hpos]; [lia|].
      assert (pow2 0 <= pow2 (binade r))%Q as Hmono
        by (apply Qpower_le_compat_l; [lia|done]).
      change (pow2 0) with 1%Q in Hmono. lra. }
  unfold roundPositive in Hfix. rewrite Hb in Hfix.
  change (pow2 (Z.max (-1) (-1022) - 52)) with (1 # 9007199254740992)%Q in Hfix.
  set (R := roundHalfEven _) in Hfix.
  assert (R < 8106479329266893)%Z as HR.
  { rewrite Zlt_Qlt. change (inject_Z 8106479329266893) with (8106479329266893 # 1)%Q.
    set (q := inject_Z R) in *. clearbody q. lra. }
  assert (inject_Z R <= 8106479329266892 # 1)%Q as HR'.
  { change (8106479329266892 # 1)%Q with (inject_Z 8106479329266892).
    rewrite <- Zle_Qle. lia. }
  set (q := inject_Z R) in *. clearbody q. lra.
Qed.

(** A draw at which the product rounds up to the next integer: the exact
    product is 3 - 2^-52, the double product is 3. *)
Lemma randomIndex_rounds_up :
  randomIndex (1228254443828317 # 4503599627370496) 11 = 3
  ∧ Qfloor ((1228254443828317 # 4503599627370496) * inject_Z 11) = 2%Z.
Proof. by vm_compute. Qed.

Lemma randomValue_cases (r : Q) :
  (randomValue r = 2%Z ∨ randomValue r = 4%Z)
  ∧ (randomValue r = 2%Z ↔ (r < 9 # 10)%Q)
  ∧ (randomValue r = 4%Z ↔ (9 # 10 <= r)%Q).
Proof.
  unfold randomValue. destruct (Qlt_le_dec r (9 # 10)) as [Hlt|Hge].
  - split; [by left|]. split; split; try done.
    intros Hge. exfalso. by apply (Qlt_not_le _ _ Hlt).
  - split; [by right|]. split; split; try done.
    intros Hlt. exfalso. by apply (Qlt_not_le _ _ Hlt).
Qed.

Lemma length_filteredLine_insert (row : list Cell) (c : nat) (v : Z) :
  c < length row → nth c row None = None →
  length (filteredLine (<[c := Some v]> row)) = S (length (filteredLine row)).
Proof.
  revert c. induction row as [|x row IH]; intros c Hc Hnone; simpl in *; [lia|].
  destruct c as [|c]; simpl.
  - by subst x.
  - destruct x; simpl; rewrite IH; (lia || done).
Qed.

Lemma sum_list_insert (l : list nat) (i y : nat) :
  i < length l → sum_list (<[i := y]> l) + nth i l 0 = sum_list l + y.
Proof.
  revert i. induction l as [|x l IH]; intros i Hi; simpl in *; [lia|].
  destruct i as [|i]; simpl; [lia|].
  specialize (IH i ltac:(lia)). lia.
Qed.

Lemma tileCount_setCell (b : GameBoard) (r c : nat) (v : Z) :
  r < length b → c < length (nth r b []) → cellAt b r c = None →
  tileCount (setCell b r c (Some v)) = S (tileCount b).
Proof.
  intros Hr Hc Hnone. unfold tileCount, setCell.
  rewrite list_fmap_insert.
  pose proof (sum_list_insert ((λ row, length (filteredLine row)) <$> b) r
    (length (filteredLine (<[c:=Some v]> (nth r b [])))))
    as Hsum.
  rewrite length_fmap in Hsum. specialize (Hsum Hr).
  rewrite length_filteredLine_insert in Hsum by done.
  assert (nth r ((λ row, length (filteredLine row)) <$> b) 0
          = length (filteredLine (nth r b []))) as Hnth.
  { rewrite !nth_lookup, list_lookup_fmap.
    destruct (b !! r) eqn:E; [done|]. apply lookup_ge_None in E. lia. }
  rewrite Hnth in Hsum. rewrite length_filteredLine_insert by done. lia.
Qed.

Lemma setCell_wf (b : GameBoard) (r c : nat) (v : Cell) :
  wfBoard b → wfBoard (setCell b r c v).
Proof.
  intros [Hlen Hrows]. unfold setCell.
  destruct (nth_lookup_or_length b r []) as [Hin|Hout].
  - split; [by rewrite length_insert|].
    apply Forall_insert; [done|]. unfold wfLine. rewrite length_insert.
    by apply (Forall_lookup_1 _ _ _ _ Hrows Hin).
  - by rewrite list_insert_ge.
Qed.

Lemma wfBoard_row_length (b : GameBoard) (r : nat) :
  wfBoard b → r < GRID_SIZE → length (nth r b []) = GRID_SIZE.
Proof.
  intros [Hlen Hrows] Hr.
  destruct (nth_lookup_or_length b r []) as [Hin|Hout]; [|lia].
  by apply (Forall_lookup_1 _ _ _ _ Hrows Hin).
Qed.

Lemma NoDup_join_fmap {A B : Type} (g : A → list B) (key : B → A) (l : list A) :
  NoDup l → (∀ x, NoDup (g x)) → (∀ x y, y ∈ g x → key y = x) →
  NoDup (mjoin (g <$> l)).
Proof.
  intros Hl Hg Hkey. induction Hl as [|x l Hx Hl IH]; simpl; [constructor|].
  apply NoDup_app. split; [apply Hg|]. split; [|done].
  intros y Hy Hin. apply list_elem_of_join in Hin as (l' & Hyl' & Hl').
  apply list_elem_of_fmap in Hl' as (x' & -> & Hx').
  apply Hkey in Hy, Hyl'. congruence.
Qed.

Lemma NoDup_emptyCells (b : GameBoard) : NoDup (emptyCells b).
Proof.
  rewrite emptyCells_closed. apply (NoDup_join_fmap _ fst).
  - apply NoDup_seq.
  - intros row. apply NoDup_fmap_2; [intros ?? [=]; done|].
    apply NoDup_filter, NoDup_seq.
  - intros row y Hy. apply list_elem_of_fmap in Hy as (col & -> & _). done.
Qed.

Lemma emptyCells_nil_iff (b : GameBoard) :
  emptyCells b = []
  ↔ ∀ r c, r < GRID_SIZE → c < GRID_SIZE → cellAt b r c ≠ None.
Proof.
  split.
  - intros Hnil r c Hr Hc Hnone.
    assert ((r, c) ∈ emptyCells b) as Hin by (by apply elem_of_emptyCells).
    rewrite Hnil in Hin. by apply not_elem_of_nil in Hin.
  - intros Hfull. destruct (emptyCells b) as [|[r c] rest] eqn:E; [done|].
    assert ((r, c) ∈ emptyCells b) as Hin by (rewrite E; left).
    apply elem_of_emptyCells in Hin as (Hr & Hc & Hnone). by destruct (Hfull r c).
Qed.

(** C5: when the grid has no empty cell [addRandomTile] returns it
    unchanged; otherwise exactly one cell changes: it was empty, it now
    holds 2 or 4, every other cell is as before and the grid has one tile
    more.  The cell is the entry of the row-major list of empty cells
    (each empty cell listed once) at the floor of the double product of
    the first draw and the number [n] of empty cells: index [k] is chosen
    exactly when that product lies in [k, k + 1), which holds whenever
    [draw * n] lies in [k, k + 1) by more than the rounding error of the
    product, so the [n] empty cells share the interval [0, 1) of the draw
    in [n] parts of equal width up to that error.  The value is 2 exactly
    on the part [0, 9/10) of the second draw and 4 on [9/10, 1).  Every
    double of [0, 1) is at most [maxDraw], and on doubles the test against
    9/10 is the test against the double nearest to it. *)
Theorem addRandomTile_spawns (b : GameBoard) (d : Draw) :
  wfBoard b → validDraw d →
  let n := length (emptyCells b) in
  ((∀ r c, r < GRID_SIZE → c < GRID_SIZE → cellAt b r c ≠ None) →
   addRandomTile b d = b)
  ∧ ((∃ r c, r < GRID_SIZE ∧ c < GRID_SIZE ∧ cellAt b r c = None) →
     ∃ r c v,
       emptyCells b !! randomIndex (cellDraw d) n = Some (r, c)
       ∧ r < GRID_SIZE ∧ c < GRID_SIZE ∧ cellAt b r c = None
       ∧ (v = 2 ∨ v = 4)%Z
       ∧ (v = 2%Z ↔ (valueDraw d < 9 # 10)%Q)
       ∧ (v = 4%Z ↔ (9 # 10 <= valueDraw d)%Q)
       ∧ cellAt (addRandomTile b d) r c = Some v
       ∧ (∀ r' c', (r', c') ≠ (r, c) →
            cellAt (addRandomTile b d) r' c' = cellAt b r' c')
       ∧ tileCount (addRandomTile b d) = S (tileCount b)
       ∧ wfBoard (addRandomTile b d))
  ∧ NoDup (emptyCells b)
  ∧ (∀ r c, (r, c) ∈ emptyCells b
            ↔ r < GRID_SIZE ∧ c < GRID_SIZE ∧ cellAt b r c = None)
  ∧ (∀ k,
       randomIndex (cellDraw d) n = k
       ↔ (inject_Z (Z.of_nat k)
          <= roundDouble (cellDraw d * inject_Z (Z.of_nat n)))%Q
         ∧ (roundDouble (cellDraw d * inject_Z (Z.of_nat n))
            < inject_Z (Z.of_nat k + 1))%Q)
  ∧ (∀ k,
       let x := (cellDraw d * inject_Z (Z.of_nat n))%Q in
       (inject_Z (Z.of_nat k) <= x - x * pow2 (-53) - pow2 (-1075))%Q →
       (x + x * pow2 (-53) + pow2 (-1075) < inject_Z (Z.of_nat k + 1))%Q →
       randomIndex (cellDraw d) n = k)
  ∧ (∀ r, (0 <= r)%Q → (r < 1)%Q → (roundDouble r == r)%Q → (r <= maxDraw)%Q)
  ∧ (∀ r, (0 <= r)%Q → (roundDouble r == r)%Q →
       (r < 9 # 10)%Q ↔ (r < roundDouble (9 # 10))%Q).
Proof.
  intros Hwf (Hc0 & Hc1 & Hv0 & Hv1) n.
  split; [|split; [|split; [|split; [|split; [|split; [|split]]]]]].
  - intros Hfull. apply emptyCells_nil_iff in Hfull.
    unfold addRandomTile. by rewrite Hfull.
  - intros (r0 & c0 & Hr0 & Hc0' & Hnone0).
    assert (0 < n) as Hn.
    { subst n. destruct (emptyCells b) eqn:E; [|simpl; lia].
      assert ((r0, c0) ∈ emptyCells b) as Hin by (by apply elem_of_emptyCells).
      rewrite E in Hin. by apply not_elem_of_nil in Hin. }
    pose proof (randomIndex_lt (cellDraw d) n Hc0 Hc1 Hn) as Hidx.
    destruct (lookup_lt_is_Some_2 (emptyCells b) _ Hidx) as [[r c] Hrc].
    pose proof (list_elem_of_lookup_2 _ _ _ Hrc) as Hin.
    apply elem_of_emptyCells in Hin as (Hr & Hc & Hnone).
    destruct (randomValue_cases (valueDraw d)) as (Hv & Hv2 & Hv4).
    assert (addRandomTile b d = setCell b r c (Some (randomValue (valueDraw d))))
      as Hres.
    { unfold addRandomTile. fold n. rewrite Hrc.
      destruct (Nat.eqb_spec n 0); [lia|done]. }
    exists r, c, (randomValue (valueDraw d)). rewrite Hres.
    assert (r < length b) as Hrb by (destruct Hwf as [-> _]; done).
    assert (c < length (nth r b [])) as Hcb by (by rewrite wfBoard_row_length).
    split_and!; [done|done|done|done|exact Hv|exact Hv2|exact Hv4| | | |].
    + by apply cellAt_setCell.
    + intros r' c' Hne. by apply cellAt_setCell_ne.
    + by apply tileCount_setCell.
    + by apply setCell_wf.
  - apply NoDup_emptyCells.
  - intros r c. apply elem_of_emptyCells.
  - intros k. by apply randomIndex_iff.
  - intros k. by apply randomIndex_part.
  - apply double_below_one.
  - apply double_below_nine_tenths.
Qed.

Lemma validDraw_sampleDraw : validDraw sampleDraw.
Proof. repeat split; by vm_compute. Qed.

Lemma wfBoard_fiveTileBoard : wfBoard fiveTileBoard.
Proof. split; [done|by repeat constructor]. Qed.

Lemma validDraw_roundingDraw : validDraw roundingDraw.
Proof. repeat split; by vm_compute. Qed.

Lemma addRandomTile_spawns_witness :
  wfBoard packedBoard ∧ validDraw sampleDraw
  ∧ tileCount (addRandomTile packedBoard sampleDraw) = 8
  ∧ wfBoard fiveTileBoard ∧ validDraw roundingDraw
  ∧ emptyCells fiveTileBoard !! 3 = Some (2, 0)
  ∧ cellAt (addRandomTile fiveTileBoard roundingDraw) 2 0 = Some 2%Z.
Proof.
  split; [exact wfBoard_packedBoard|]. split; [exact validDraw_sampleDraw|].
  destruct (addRandomTile_spawns packedBoard sampleDraw
              wfBoard_packedBoard validDraw_sampleDraw) as (_ & Hspawn & _).
  destruct Hspawn as (r & c & v & _ & _ & _ & _ & _ & _ & _ & _ & _ & Hcount & _).
  { exists 1, 0. unfold GRID_SIZE. split_and!; [lia | lia | reflexivity]. }
  split; [exact Hcount|].
  split; [exact wfBoard_fiveTileBoard|]. split; [exact validDraw_roundingDraw|].
  split; [reflexivity|].
  destruct (addRandomTile_spawns fiveTileBoard roundingDraw
              wfBoard_fiveTileBoard validDraw_roundingDraw) as (_ & Hspawn & _).
  destruct Hspawn as (r' & c' & v' & Hlook & _ & _ & _ & _ & Htwo & _ & Hcell & _).
  { exists 1, 1. unfold GRID_SIZE. split_and!; [lia | lia | reflexivity]. }
  vm_compute in Hlook. injection Hlook as <- <-.
  rewrite Hcell. f_equal. apply Htwo. reflexivity.
Defined.

(** ** The session handlers *)

Lemma length_pushSnapshot (snap : GameState) (prev : list GameState) :
  length (pushSnapshot snap prev) = S (Nat.min (length prev) 4).
Proof.
  unfold pushSnapshot. rewrite length_app, length_drop. simpl. lia.
Qed.

Lemma pushSnapshot_last (snap : GameState) (prev : list GameState) :
  pushSnapshot snap prev !! (length (pushSnapshot snap prev) - 1) = Some snap.
Proof.
  rewrite length_pushSnapshot. unfold pushSnapshot.
  rewrite lookup_app_r; rewrite length_drop; [|lia].
  replace (S (length prev `min` 4) - 1 - (length prev - (length prev - 4))) with 0 by lia.
  done.
Qed.

Lemma pushSnapshot_full (snap s0 s1 s2 s3 s4 : GameState) :
  pushSnapshot snap [s0; s1; s2; s3; s4] = [s1; s2; s3; s4; snap].
Proof. reflexivity. Qed.

Lemma processMove_rejected (g : Game2048) (dir : Direction) (d : Draw) :
  moved (moveBoard (board g) dir) = false →
  processMove g dir d
  = (setUndoStack (pushSnapshot (mkGameState (board g) (score g))) g, false).
Proof. intros H. unfold processMove. by rewrite H. Qed.

Ltac split_when :=
  cbn [when];
  repeat match goal with
         | |- context [when ?c _] => destruct c; cbn [when]
         end.

Ltac split_unlock :=
  repeat match goal with
  | |- context [(?a <=? ?b)%Z] => destruct (Z.leb_spec a b)
  | |- context [(?a <? ?b)%Z] => destruct (Z.ltb_spec a b)
  end.

(** C6: on a move that changed the grid the unlock tests read the score
    gained by this move alone: the new score is the old one plus the gain,
    a gain of at least 128 adds one undo up to 3, a gain of at least 256
    one swap up to 2, a gain of at least 512 one delete up to 1, each test
    on its own; a gain from 0 to 127 leaves the undo counter as it was. *)
Theorem processMove_unlocks (g : Game2048) (dir : Direction) (d : Draw) :
  moved (moveBoard (board g) dir) = true →
  (undoCount g <= MAX_UNDO_COUNT)%Z →
  (swapCount g <= MAX_SWAP_COUNT)%Z →
  (deleteCount g <= MAX_DELETE_COUNT)%Z →
  let gain := moveScore (moveBoard (board g) dir) in
  let g' := fst (processMove g dir d) in
  snd (processMove g dir d) = true
  ∧ score g' = (score g + gain)%Z
  ∧ undoCount g'
    = (if (128 <=? gain)%Z then Z.min (undoCount g + 1) 3 else undoCount g)
  ∧ swapCount g'
    = (if (256 <=? gain)%Z then Z.min (swapCount g + 1) 2 else swapCount g)
  ∧ deleteCount g'
    = (if (512 <=? gain)%Z then Z.min (deleteCount g + 1) 1 else deleteCount g)
  ∧ ((0 <= gain < 128)%Z → undoCount g' = undoCount g).
Proof.
  intros Hmoved Hu Hs Hd gain g'. subst g' gain. unfold processMove.
  rewrite Hmoved. cbn [negb fst snd].
  unfold UNDO_UNLOCK_THRESHOLD, SWAP_UNLOCK_THRESHOLD, DELETE_UNLOCK_THRESHOLD,
    MAX_UNDO_COUNT, MAX_SWAP_COUNT, MAX_DELETE_COUNT in *.
  generalize (addRandomTile (newBoard (moveBoard (board g) dir)) d). intros bt.
  generalize (isGameWon bt && negb (gameWon g)) (isGameOver bt). intros w o.
  generalize (moveScore (moveBoard (board g) dir)). intros gain.
  destruct g as [b sc won over mode sel st u s dl].
  cbn [board score undoCount swapCount deleteCount] in *.
  split_unlock; destruct w, o; cbn; split_and!; try reflexivity; try lia.
Qed.

Lemma processMove_undoStack (g : Game2048) (dir : Direction) (d : Draw) :
  undoStack (fst (processMove g dir d))
  = pushSnapshot (mkGameState (board g) (score g)) (undoStack g).
Proof.
  unfold processMove. destruct (moved (moveBoard (board g) dir)); cbn [negb fst].
  - generalize (addRandomTile (newBoard (moveBoard (board g) dir)) d). intros bt.
    generalize (isGameWon bt && negb (gameWon g)) (isGameOver bt). intros w o.
    split_when; reflexivity.
  - reflexivity.
Qed.

Lemma processMove_undoCount (g : Game2048) (dir : Direction) (d : Draw) :
  (undoCount g <= undoCount (fst (processMove g dir d)))%Z.
Proof.
  unfold processMove. destruct (moved (moveBoard (board g) dir)); cbn [negb fst].
  - generalize (addRandomTile (newBoard (moveBoard (board g) dir)) d). intros bt.
    generalize (isGameWon bt && negb (gameWon g)) (isGameOver bt). intros w o.
    unfold MAX_UNDO_COUNT.
    destruct (Z.ltb_spec (undoCount g) 3); rewrite ?andb_false_r;
      split_when; cbn; lia.
  - cbn. lia.
Qed.

Lemma handleUndo_pops (g : Game2048) (snap : GameState) :
  (0 < undoCount g)%Z →
  undoStack g !! (length (undoStack g) - 1) = Some snap →
  handleUndo g
  = mkGame (gsBoard snap) (gsScore snap) false false ModeNone []
           (take (length (undoStack g) - 1) (undoStack g))
           (undoCount g - 1) (swapCount g) (deleteCount g).
Proof.
  intros Hcount Hlast. unfold handleUndo. rewrite Hlast.
  apply Z.ltb_lt in Hcount. rewrite Hcount.
  assert (0 < length (undoStack g)) as Hlen.
  { apply lookup_lt_Some in Hlast. lia. }
  apply Nat.ltb_lt in Hlen. rewrite Hlen. reflexivity.
Qed.

Lemma handleUndo_refused (g : Game2048) :
  (undoCount g <= 0)%Z ∨ undoStack g = [] → handleUndo g = g.
Proof.
  intros [Hcount|Hempty]; unfold handleUndo.
  - apply Z.ltb_ge in Hcount. by rewrite Hcount.
  - rewrite Hempty. simpl. by rewrite andb_false_r.
Qed.

(** C7: with an undo left, a move that changed the grid followed by an
    undo gives back the grid and the score held before the move, and the
    undo counter is one less than after the move; an undo asked with no
    undo left or with an empty history changes nothing. *)
Theorem undo_after_move (g : Game2048) (dir : Direction) (d : Draw) :
  (0 < undoCount g)%Z →
  moved (moveBoard (board g) dir) = true →
  let g1 := fst (processMove g dir d) in
  let g2 := handleUndo g1 in
  board g2 = board g
  ∧ score g2 = score g
  ∧ undoCount g2 = (undoCount g1 - 1)%Z
  ∧ (∀ g0, undoCount g0 = 0%Z ∨ undoStack g0 = [] → handleUndo g0 = g0).
Proof.
  intros Hcount Hmoved g1 g2.
  assert (handleUndo g1
          = mkGame (board g) (score g) false false ModeNone []
                   (take (length (undoStack g1) - 1) (undoStack g1))
                   (undoCount g1 - 1) (swapCount g1) (deleteCount g1)) as Hundo.
  { apply (handleUndo_pops g1 (mkGameState (board g) (score g))).
    - pose proof (processMove_undoCount g dir d). subst g1. lia.
    - subst g1. rewrite processMove_undoStack. apply pushSnapshot_last. }
  subst g2. rewrite Hundo. split_and!; try reflexivity.
  intros g0 [H0|Hnil]; apply handleUndo_refused; [left; lia|by right].
Qed.

Lemma handleTileClick_undoStack (g g' : Game2048) (row col : nat) (d1 d2 : Draw) :
  handleTileClick g row col d1 d2 = Some g' →
  undoStack g' = undoStack g
  ∨ undoStack g' = pushSnapshot (mkGameState (board g) (score g)) (undoStack g).
Proof.
  unfold handleTileClick. intros H.
  repeat case_match; simplify_eq; try (by left); right; split_when; reflexivity.
Qed.

Lemma startNewGame_undoStack (g : Game2048) (d1 d2 : Draw) :
  undoStack (startNewGame g d1 d2) = [].
Proof. reflexivity. Qed.

Lemma perform_undoStack_bound (g : Game2048) (r : Request) :
  length (undoStack g) ≤ 5 → length (undoStack (perform g r)) ≤ 5.
Proof.
  intros Hlen. destruct r as [dir d| |row col d1 d2|d1 d2| | |]; cbn [perform].
  - rewrite processMove_undoStack, length_pushSnapshot. lia.
  - unfold handleUndo. repeat case_match; try done.
    cbn. rewrite length_take. lia.
  - destruct (handleTileClick g row col d1 d2) as [g'|] eqn:E; [|done].
    cbn [from_option id]. apply handleTileClick_undoStack in E as [->| ->]; [done|].
    rewrite length_pushSnapshot. lia.
  - rewrite startNewGame_undoStack. simpl. lia.
  - unfold swapButtonClick. by case_match.
  - unfold deleteButtonClick. by case_match.
  - done.
Qed.

(** C9: in every powerup mode and with every selection, a click on a
    coordinate of the grid whose cell is empty leaves the whole state as
    it was: grid, score, counters, mode, selection and history. *)
Theorem click_on_empty_cell (g : Game2048) (row col : nat) (d1 d2 : Draw) :
  wfBoard (board g) → row < GRID_SIZE → col < GRID_SIZE →
  cellAt (board g) row col = None →
  handleTileClick g row col d1 d2 = Some g.
Proof.
  intros [Hlen _] Hrow _ Hnone. unfold handleTileClick.
  case_bool_decide; [done|].
  destruct (Nat.leb_spec (length (board g)) row) as [Hge|_]; [lia|].
  by rewrite Hnone.
Qed.

Lemma processMove_unlocks_witness :
  (undoCount mergeGame <= MAX_UNDO_COUNT)%Z
  ∧ moveScore (moveBoard (board mergeGame) Left) = 128%Z
  ∧ undoCount (fst (processMove mergeGame Left sampleDraw)) = 3%Z
  ∧ swapCount (fst (processMove mergeGame Left sampleDraw)) = 1%Z.
Proof.
  assert (undoCount mergeGame <= MAX_UNDO_COUNT)%Z as Hu by (vm_compute; discriminate).
  assert (swapCount mergeGame <= MAX_SWAP_COUNT)%Z as Hs by (vm_compute; discriminate).
  assert (deleteCount mergeGame <= MAX_DELETE_COUNT)%Z as Hd by (vm_compute; discriminate).
  destruct (processMove_unlocks mergeGame Left sampleDraw eq_refl Hu Hs Hd)
    as (_ & _ & Hundo & Hswap & _).
  split; [exact Hu|]. split; [reflexivity|]. split; [exact Hundo | exact Hswap].
Defined.

Lemma undo_after_move_witness :
  (0 < undoCount mergeGame)%Z
  ∧ board (handleUndo (fst (processMove mergeGame Left sampleDraw))) = mergeBoard
  ∧ score (handleUndo (fst (processMove mergeGame Left sampleDraw))) = 0%Z
  ∧ undoCount (handleUndo (fst (processMove mergeGame Left sampleDraw))) = 2%Z.
Proof.
  assert (0 < undoCount mergeGame)%Z as Hu by reflexivity.
  destruct (undo_after_move mergeGame Left sampleDraw Hu eq_refl)
    as (Hboard & Hscore & Hcount & _).
  split; [exact Hu|]. split; [exact Hboard|]. split; [exact Hscore|].
  rewrite Hcount. reflexivity.
Defined.

Lemma click_on_empty_cell_witness :
  wfBoard (board deleteModeGame) ∧ 1 < GRID_SIZE ∧ 2 < GRID_SIZE
  ∧ cellAt (board deleteModeGame) 1 2 = None
  ∧ handleTileClick deleteModeGame 1 2 sampleDraw sampleDraw = Some deleteModeGame.
Proof.
  assert (1 < GRID_SIZE) as H1 by (unfold GRID_SIZE; lia).
  assert (2 < GRID_SIZE) as H2 by (unfold GRID_SIZE; lia).
  split; [exact wfBoard_packedBoard|]. split; [exact H1|]. split; [exact H2|].
  split; [reflexivity|].
  exact (click_on_empty_cell deleteModeGame 1 2 sampleDraw sampleDraw
           wfBoard_packedBoard H1 H2 eq_refl).
Defined.

(** C1, evaluated on the code: [packedBoard] does not change when moved
    left, [processMove] reports [false] and leaves grid and score alone,
    but the snapshot queued before the move engine ran stays in the
    history, which was empty; an undo asked next spends one undo use. *)
Theorem rejected_move_leaves_snapshot :
  moved (moveBoard (board packedGame) Left) = false
  ∧ snd (processMove packedGame Left sampleDraw) = false
  ∧ board (fst (processMove packedGame Left sampleDraw)) = board packedGame
  ∧ score (fst (processMove packedGame Left sampleDraw)) = score packedGame
  ∧ undoStack packedGame = []
  ∧ undoStack (fst (processMove packedGame Left sampleDraw))
    = [mkGameState packedBoard 0]
  ∧ undoCount (handleUndo (fst (processMove packedGame Left sampleDraw))) = 1%Z.
Proof. vm_compute. repeat split. Qed.



Lemma perform_countersInRange (g : Game2048) (r : Request) :
  countersInRange g → countersInRange (perform g r).
Proof.
  unfold countersInRange, MAX_UNDO_COUNT, MAX_SWAP_COUNT, MAX_DELETE_COUNT.
  intros (Hu & Hs & Hd & Hm).
  destruct r as [dir d| |row col d1 d2|d1 d2| | |]; cbn [perform].
  - unfold processMove. destruct (moved (moveBoard (board g) dir)); cbn [negb fst].
    + unfold UNDO_UNLOCK_THRESHOLD, SWAP_UNLOCK_THRESHOLD, DELETE_UNLOCK_THRESHOLD,
        MAX_UNDO_COUNT, MAX_SWAP_COUNT, MAX_DELETE_COUNT.
      generalize (addRandomTile (newBoard (moveBoard (board g) dir)) d). intros bt.
      generalize (isGameWon bt && negb (gameWon g)) (isGameOver bt). intros w o.
      generalize (moveScore (moveBoard (board g) dir)). intros gain.
      destruct g as [b sc won over mode sel st u s dl].
      cbn [board score undoCount swapCount deleteCount powerupMode] in *.
      split_unlock; destruct w, o; cbn; split_and!; try lia; done.
    + cbn. split_and!; try lia; done.
  - unfold handleUndo. repeat case_match; try (split_and!; (lia || done)).
    all: cbn; split_and!; try lia; done.
  - unfold handleTileClick.
    repeat case_match; simplify_eq; cbn [from_option id];
      try (split_and!; (lia || done)).
    all: repeat match goal with
                | H : _ && _ = true |- _ => apply andb_true_iff in H as [? ?]
                | H : (_ <? _)%Z = true |- _ => apply Z.ltb_lt in H
                end.
    all: try specialize (Hm ltac:(done)).
    all: split_when; cbn -[imap pushSnapshot addRandomTile];
      split_and!; try lia; try done.
    intros; congruence.
  - cbn. split_and!; try lia; done.
  - unfold swapButtonClick. destruct (Z.eqb_spec (swapCount g) 0).
    + split_and!; try lia; done.
    + cbn. split_and!; try lia; try done.
  - unfold deleteButtonClick. case_match; [split_and!; try lia; done|].
    cbn. split_and!; try lia; try done. by case_bool_decide.
  - cbn. split_and!; try lia; done.
Qed.

Lemma reachable_countersInRange (rs : list Request) :
  countersInRange (foldl perform initialGame rs).
Proof.
  induction rs as [|r rs IH] using rev_ind.
  - unfold countersInRange. cbn. split_and!; try lia; done.
  - rewrite foldl_app. by apply perform_countersInRange.
Qed.





(** * Further properties of the rules *)

(** ** The line resolver, continued *)

Lemma merge_count (vs : list Z) :
  length (slideMerge vs) + length (mergedValues vs) = length vs.
Proof.
  induction vs as [|a|a b rest IH1 IH2] using list_pair_ind; simpl; try lia.
  destruct (a =? b)%Z; simpl in *; lia.
Qed.

Lemma mergedValues_origin (vs : list Z) (m : Z) :
  m ∈ mergedValues vs → m ∈ slideMerge vs ∧ ∃ v, v ∈ vs ∧ m = (2 * v)%Z.
Proof.
  induction vs as [|a|a b rest IH1 IH2] using list_pair_ind; simpl.
  - intros H. by apply not_elem_of_nil in H.
  - intros H. by apply not_elem_of_nil in H.
  - destruct (Z.eqb_spec a b) as [->|Hne].
    + intros [->|Hin]%elem_of_cons.
      * split; [left|]. exists b. split; [left|done].
      * destruct (IH1 Hin) as [H1 (v & Hv & ->)].
        split; [by right|]. exists v. split; [by do 2 right|done].
    + intros Hin. destruct (IH2 Hin) as [H1 (v & Hv & ->)].
      split; [by right|]. exists v. split; [by right|done].
Qed.

Lemma slideMerge_origin (vs : list Z) (x : Z) :
  x ∈ slideMerge vs → x ∈ vs ∨ ∃ v, v ∈ vs ∧ x = (2 * v)%Z.
Proof.
  induction vs as [|a|a b rest IH1 IH2] using list_pair_ind; simpl.
  - intros H. by apply not_elem_of_nil in H.
  - intros H. by left.
  - destruct (Z.eqb_spec a b) as [->|Hne].
    + intros [->|Hin]%elem_of_cons.
      * right. exists b. split; [left|done].
      * destruct (IH1 Hin) as [H1|(v & Hv & ->)].
        -- left. by do 2 right.
        -- right. exists v. split; [by do 2 right|done].
    + intros [->|Hin]%elem_of_cons; [left; left|].
      destruct (IH2 Hin) as [H1|(v & Hv & ->)].
      * left. by right.
      * right. exists v. split; [by right|done].
Qed.

Lemma slideMerge_fixed (vs : list Z) :
  slideMerge vs = vs ↔ adjacentDistinct vs = true.
Proof.
  induction vs as [|a|a b rest IH1 IH2] using list_pair_ind; simpl in *; try done.
  destruct (Z.eqb_spec a b) as [->|Hne]; simpl.
  - split; [|done]. intros H.
    apply (f_equal length) in H. simpl in H.
    pose proof (length_slideMerge rest). lia.
  - rewrite <- IH2. split; [by intros [= ?]|by intros ->].
Qed.

Lemma mergedValues_fixed (vs : list Z) :
  adjacentDistinct vs = true → mergedValues vs = [].
Proof.
  intros H. apply slideMerge_fixed in H.
  pose proof (merge_count vs) as Hc. rewrite H in Hc.
  destruct (mergedValues vs); [done|simpl in Hc; lia].
Qed.

Lemma filteredLine_fmap_Some (line : list Cell) :
  filter (λ cell, cell ≠ None) line = Some <$> filteredLine line.
Proof.
  induction line as [|[v|] line IH]; simpl; [done| |].
  - rewrite filter_cons_True by done. by rewrite IH.
  - rewrite filter_cons_False by (intros H; by apply H). done.
Qed.

Lemma elem_of_filteredLine (line : list Cell) (v : Z) :
  v ∈ filteredLine line ↔ Some v ∈ line.
Proof.
  induction line as [|[w|] line IH]; simpl.
  - split; intros H; by apply not_elem_of_nil in H.
  - rewrite !elem_of_cons, IH. split; intros [H|H]; (by left) || (by right) || idtac.
    + left. by f_equal.
    + left. by injection H.
  - rewrite elem_of_cons, IH. split; [by right|]. by intros [?|?].
Qed.

(** X2: in one resolution of a line every merge removes exactly one tile:
    the tiles of the output plus the merges make the tiles of the input,
    the score is the sum of the merged values, and each merged value is a
    tile of the output and the double of a tile of the input. *)
Theorem moveLine_merge_count (line : list Cell) :
  let vs := filteredLine line in
  let out := filteredLine (fst (moveLine line)) in
  length out + length (mergedValues vs) = length vs
  ∧ snd (moveLine line) = sumZ (mergedValues vs)
  ∧ (∀ m, m ∈ mergedValues vs → m ∈ out ∧ ∃ v, v ∈ vs ∧ m = (2 * v)%Z).
Proof.
  intros vs out. subst vs out. rewrite moveLine_spec. cbn [fst snd].
  unfold resolvedLine. rewrite filteredLine_resolved.
  split_and!; [apply merge_count|done|apply mergedValues_origin].
Qed.

(** X3: a line of 4 cells is left as it is by [moveLine] exactly when its
    tiles are packed at the front and no two neighbouring tiles are equal,
    and such a line scores 0. *)
Theorem moveLine_fixed_iff (line : list Cell) :
  wfLine line →
  (fst (moveLine line) = line
   ↔ ∃ vs, line = (Some <$> vs) ++ replicate (GRID_SIZE - length vs) None
           ∧ adjacentDistinct vs = true)
  ∧ (fst (moveLine line) = line → snd (moveLine line) = 0%Z).
Proof.
  intros Hwf. rewrite moveLine_spec. cbn [fst snd]. unfold resolvedLine.
  assert (∀ vs, line = (Some <$> vs) ++ replicate (GRID_SIZE - length vs) None →
                filteredLine line = vs) as Hvs.
  { intros vs ->. apply filteredLine_resolved. }
  split; [split|].
  - intros Hfix. exists (filteredLine line).
    assert (slideMerge (filteredLine line) = filteredLine line) as Hsm.
    { rewrite <- Hfix at 2. by rewrite filteredLine_resolved. }
    split; [|by apply slideMerge_fixed]. by rewrite Hsm in Hfix.
  - intros (vs & Hline & Hdist). rewrite (Hvs vs Hline).
    apply slideMerge_fixed in Hdist. by rewrite Hdist.
  - intros Hfix.
    assert (slideMerge (filteredLine line) = filteredLine line) as Hsm.
    { rewrite <- Hfix at 2. by rewrite filteredLine_resolved. }
    apply slideMerge_fixed in Hsm. by rewrite mergedValues_fixed.
Qed.

Lemma slideMerge_Forall (P : Z → Prop) (vs : list Z) :
  (∀ v, P v → P (2 * v)%Z) → Forall P vs → Forall P (slideMerge vs).
Proof.
  intros Hdouble Hall. apply Forall_forall. intros x Hx.
  rewrite Forall_forall in Hall.
  apply slideMerge_origin in Hx as [Hin|(v & Hv & ->)]; auto.
Qed.

Lemma Forall_cellSatisfies (P : Z → Prop) (line : list Cell) :
  Forall (cellSatisfies P) line ↔ Forall P (filteredLine line).
Proof.
  induction line as [|[v|] line IH]; simpl.
  - split; constructor.
  - rewrite !Forall_cons, IH. done.
  - rewrite Forall_cons, IH. simpl. tauto.
Qed.

Lemma moveLine_cellSatisfies (P : Z → Prop) (line : list Cell) :
  (∀ v, P v → P (2 * v)%Z) →
  Forall (cellSatisfies P) line → Forall (cellSatisfies P) (fst (moveLine line)).
Proof.
  intros Hdouble Hall. rewrite Forall_cellSatisfies in *.
  rewrite moveLine_spec. cbn [fst]. unfold resolvedLine.
  rewrite filteredLine_resolved. by apply slideMerge_Forall.
Qed.

Lemma isTileValue_double (v : Z) : isTileValue v → isTileValue (2 * v).
Proof.
  intros [k ->]. exists (S k).
  rewrite (Nat2Z.inj_succ (S k)), Z.pow_succ_r by lia. done.
Qed.

(** ** The move engine and the terminal detector *)

Lemma anyCell_true_iff (p : nat → nat → bool) :
  anyCell p = true ↔ ∃ r c, r < GRID_SIZE ∧ c < GRID_SIZE ∧ p r c = true.
Proof.
  unfold anyCell. rewrite existsb_exists. split.
  - intros (r & Hr & Hex). apply existsb_exists in Hex as (c & Hc & Hp).
    apply in_seq in Hr, Hc. exists r, c. split_and!; (lia || done).
  - intros (r & c & Hr & Hc & Hp). exists r. split; [apply in_seq; lia|].
    apply existsb_exists. exists c. split; [apply in_seq; lia|done].
Qed.

Lemma anyCell_false_iff (p : nat → nat → bool) :
  anyCell p = false ↔ ∀ r c, r < GRID_SIZE → c < GRID_SIZE → p r c = false.
Proof.
  split.
  - intros Hany r c Hr Hc. destruct (p r c) eqn:Hp; [|done].
    assert (anyCell p = true) as Ht by (apply anyCell_true_iff; eauto).
    congruence.
  - intros Hall. destruct (anyCell p) eqn:Hany; [|done].
    apply anyCell_true_iff in Hany as (r & c & Hr & Hc & Hp).
    rewrite Hall in Hp by done. done.
Qed.

Lemma strictEq_false (a b : Cell) : strictEq a b = false ↔ a ≠ b.
Proof. unfold strictEq. by rewrite bool_decide_eq_false. Qed.

Lemma isGameWon_iff (b : GameBoard) :
  isGameWon b = true
  ↔ ∃ r c, r < GRID_SIZE ∧ c < GRID_SIZE ∧ cellAt b r c = Some WINNING_NUMBER.
Proof.
  unfold isGameWon. rewrite anyCell_true_iff.
  by setoid_rewrite strictEq_true.
Qed.

Lemma isGameOver_iff (b : GameBoard) :
  isGameOver b = true
  ↔ (∀ r c, r < GRID_SIZE → c < GRID_SIZE → cellAt b r c ≠ None)
    ∧ (∀ r c, r < GRID_SIZE → c < GRID_SIZE - 1 →
         cellAt b r (c + 1) ≠ cellAt b r c)
    ∧ (∀ r c, r < GRID_SIZE - 1 → c < GRID_SIZE →
         cellAt b (r + 1) c ≠ cellAt b r c).
Proof.
  unfold isGameOver.
  destruct (anyCell (λ row col, strictEq (cellAt b row col) None)) eqn:Hempty.
  - split; [done|]. intros (Hfull & _).
    apply anyCell_true_iff in Hempty as (r & c & Hr & Hc & Hnone).
    apply strictEq_true in Hnone. by destruct (Hfull r c).
  - rewrite anyCell_false_iff in Hempty.
    match goal with |- context [anyCell ?p] => destruct (anyCell p) eqn:Hpair end.
    + split; [done|]. intros (_ & Hrow & Hcol).
      apply anyCell_true_iff in Hpair as (r & c & Hr & Hc & Hp).
      apply orb_true_iff in Hp as [Hp|Hp]; apply andb_true_iff in Hp as [Hlt Heq];
        apply Nat.ltb_lt in Hlt; apply strictEq_true in Heq.
      * by destruct (Hrow r c).
      * by destruct (Hcol r c).
    + rewrite anyCell_false_iff in Hpair. split; [intros _|done]. split_and!.
      * intros r c Hr Hc. apply strictEq_false. by apply Hempty.
      * intros r c Hr Hc. specialize (Hpair r c Hr ltac:(unfold GRID_SIZE in *; lia)).
        apply orb_false_iff in Hpair as [Hp _].
        apply andb_false_iff in Hp as [Hp|Hp].
        -- apply Nat.ltb_ge in Hp. lia.
        -- by apply strictEq_false.
      * intros r c Hr Hc. specialize (Hpair r c ltac:(unfold GRID_SIZE in *; lia) Hc).
        apply orb_false_iff in Hpair as [_ Hp].
        apply andb_false_iff in Hp as [Hp|Hp].
        -- apply Nat.ltb_ge in Hp. lia.
        -- by apply strictEq_false.
Qed.

Lemma moveLine_full_distinct (v0 v1 v2 v3 : Z) :
  v0 ≠ v1 → v1 ≠ v2 → v2 ≠ v3 →
  moveLine [Some v0; Some v1; Some v2; Some v3]
  = ([Some v0; Some v1; Some v2; Some v3], 0%Z).
Proof.
  intros H01 H12 H23. rewrite moveLine_spec. unfold resolvedLine. cbn.
  apply Z.eqb_neq in H01, H12, H23. by rewrite H01, H12, H23.
Qed.

Lemma rejected_lines (b : GameBoard) (d : Direction) (k : nat) :
  wfBoard b → moved (moveBoard b d) = false → k < GRID_SIZE →
  fst (moveLine (lineOf b d k)) = lineOf b d k.
Proof.
  intros Hwf Hmoved Hk.
  destruct (decide (fst (moveLine (lineOf b d k)) = lineOf b d k)) as [|Hne]; [done|].
  assert (moved (moveBoard b d) = true) by (apply moved_true_iff; eauto).
  congruence.
Qed.

Lemma unchanged_lines_rejected (b : GameBoard) (d : Direction) :
  wfBoard b →
  (∀ k, k < GRID_SIZE → fst (moveLine (lineOf b d k)) = lineOf b d k) →
  moved (moveBoard b d) = false.
Proof.
  intros Hwf Hsame. destruct (moved (moveBoard b d)) eqn:Hmoved; [|done].
  apply moved_true_iff in Hmoved as (k & Hk & Hne); [|done].
  by destruct Hne; apply Hsame.
Qed.

Lemma rejected_score (b : GameBoard) (d : Direction) :
  wfBoard b → moved (moveBoard b d) = false → moveScore (moveBoard b d) = 0%Z.
Proof.
  intros Hwf Hmoved. rewrite moveBoard_score by done.
  assert (∀ k, k < GRID_SIZE → snd (moveLine (lineOf b d k)) = 0%Z) as Hzero.
  { intros k Hk. pose proof (rejected_lines b d k Hwf Hmoved Hk) as Hfix.
    rewrite moveLine_spec in Hfix |- *. cbn [fst snd] in *.
    assert (slideMerge (filteredLine (lineOf b d k)) = filteredLine (lineOf b d k)) as Hsm.
    { rewrite <- Hfix at 2. unfold resolvedLine. by rewrite filteredLine_resolved. }
    apply slideMerge_fixed in Hsm. by rewrite mergedValues_fixed. }
  unfold GRID_SIZE in *. cbn [seq fmap list_fmap].
  rewrite !Hzero by lia. reflexivity.
Qed.

Lemma all_below_4 (P : nat → Prop) :
  (∀ k, k < 4 → P k) ↔ P 0 ∧ P 1 ∧ P 2 ∧ P 3.
Proof.
  split; [intros H; split_and!; apply H; lia|].
  intros (? & ? & ? & ?) k Hk. destruct k as [|[|[|[|]]]]; done || lia.
Qed.

Lemma all_below_3 (P : nat → Prop) :
  (∀ k, k < 3 → P k) ↔ P 0 ∧ P 1 ∧ P 2.
Proof.
  split; [intros H; split_and!; apply H; lia|].
  intros (? & ? & ?) k Hk. destruct k as [|[|[|]]]; done || lia.
Qed.

Lemma all_4_4 (P : nat → nat → Prop) :
  (∀ r c, r < 4 → c < 4 → P r c)
  ↔ (P 0 0 ∧ P 0 1 ∧ P 0 2 ∧ P 0 3) ∧ (P 1 0 ∧ P 1 1 ∧ P 1 2 ∧ P 1 3)
    ∧ (P 2 0 ∧ P 2 1 ∧ P 2 2 ∧ P 2 3) ∧ (P 3 0 ∧ P 3 1 ∧ P 3 2 ∧ P 3 3).
Proof.
  split; [intros H; split_and!; apply H; lia|].
  intros (H0 & H1 & H2 & H3) r c Hr. revert c.
  apply all_below_4. revert r Hr. apply all_below_4. done.
Qed.

Lemma all_4_3 (P : nat → nat → Prop) :
  (∀ r c, r < 4 → c < 3 → P r c)
  ↔ (P 0 0 ∧ P 0 1 ∧ P 0 2) ∧ (P 1 0 ∧ P 1 1 ∧ P 1 2)
    ∧ (P 2 0 ∧ P 2 1 ∧ P 2 2) ∧ (P 3 0 ∧ P 3 1 ∧ P 3 2).
Proof.
  split; [intros H; split_and!; apply H; lia|].
  intros (H0 & H1 & H2 & H3) r c Hr. revert c.
  apply all_below_3. revert r Hr. apply all_below_4. done.
Qed.

Lemma all_3_4 (P : nat → nat → Prop) :
  (∀ r c, r < 3 → c < 4 → P r c)
  ↔ (P 0 0 ∧ P 0 1 ∧ P 0 2 ∧ P 0 3) ∧ (P 1 0 ∧ P 1 1 ∧ P 1 2 ∧ P 1 3)
    ∧ (P 2 0 ∧ P 2 1 ∧ P 2 2 ∧ P 2 3).
Proof.
  split; [intros H; split_and!; apply H; lia|].
  intros (H0 & H1 & H2) r c Hr. revert c.
  apply all_below_4. revert r Hr. apply all_below_3. done.
Qed.

Lemma gameOver_rejected (b : GameBoard) (d : Direction) :
  wfBoard b → isGameOver b = true → moved (moveBoard b d) = false.
Proof.
  intros Hwf Hover.
  apply unchanged_lines_rejected; [done|]. intros k Hk.
  apply isGameOver_iff in Hover as (Hfull & Hrow & Hcol).
  board_cells b Hwf. unfold GRID_SIZE in *. cbn [Nat.sub] in *.
  apply all_4_4 in Hfull. apply all_4_3 in Hrow. apply all_3_4 in Hcol.
  cbn in Hfull, Hrow, Hcol. destruct_and!.
  repeat match goal with
         | H : ?x ≠ None |- _ => destruct x; [clear H|done]
         end.
  destruct k as [|[|[|[|]]]]; try lia; destruct d; cbn;
    rewrite moveLine_full_distinct; try done; congruence.
Qed.

(** X10: on a board that [isGameOver] accepts, a move in any direction
    reports [moved = false], returns the same board and scores 0. *)
Theorem gameOver_rejects_every_move (b : GameBoard) (d : Direction) :
  wfBoard b → isGameOver b = true →
  moved (moveBoard b d) = false
  ∧ newBoard (moveBoard b d) = b
  ∧ moveScore (moveBoard b d) = 0%Z.
Proof.
  intros Hwf Hover.
  pose proof (gameOver_rejected b d Hwf Hover) as Hmoved.
  split; [done|]. split.
  - apply moveBoard_unchanged; [done|]. intros k Hk. by apply rejected_lines.
  - by apply rejected_score.
Qed.

Lemma stuck_both_ways (a b c d : Cell) :
  fst (moveLine [a; b; c; d]) = [a; b; c; d] →
  fst (moveLine [d; c; b; a]) = [d; c; b; a] →
  (a = None ∧ b = None ∧ c = None ∧ d = None)
  ∨ (∃ v0 v1 v2 v3, a = Some v0 ∧ b = Some v1 ∧ c = Some v2 ∧ d = Some v3
                    ∧ v0 ≠ v1 ∧ v1 ≠ v2 ∧ v2 ≠ v3).
Proof.
  rewrite !moveLine_spec. unfold resolvedLine.
  destruct a as [v0|], b as [v1|], c as [v2|], d as [v3|]; cbn;
    intros H1 H2; try (by left);
    repeat match goal with
           | H : context [(?x =? ?y)%Z] |- _ => destruct (Z.eqb_spec x y)
           end; simplify_eq.
  right. exists v0, v1, v2, v3. split_and!; done.
Qed.

Lemma no_move_cases (b : GameBoard) :
  wfBoard b → (∀ d, moved (moveBoard b d) = false) →
  b = initializeBoard ∨ isGameOver b = true.
Proof.
  intros Hwf Hstuck.
  assert (∀ d k, k < 4 → fst (moveLine (lineOf b d k)) = lineOf b d k) as Hfix.
  { intros d k Hk. by apply rejected_lines. }
  pose proof (Hfix Left) as HL. pose proof (Hfix Right) as HR.
  pose proof (Hfix Up) as HU. pose proof (Hfix Down) as HD. clear Hfix Hstuck.
  cut (b = initializeBoard
       ∨ (∀ r c, r < GRID_SIZE → c < GRID_SIZE → cellAt b r c ≠ None)
         ∧ (∀ r c, r < GRID_SIZE → c < GRID_SIZE - 1 →
              cellAt b r (c + 1) ≠ cellAt b r c)
         ∧ (∀ r c, r < GRID_SIZE - 1 → c < GRID_SIZE →
              cellAt b (r + 1) c ≠ cellAt b r c)).
  { intros [?|?]; [by left|right]. by apply isGameOver_iff. }
  board_cells b Hwf.
  apply all_below_4 in HL as (L0 & L1 & L2 & L3).
  apply all_below_4 in HR as (R0 & R1 & R2 & R3).
  apply all_below_4 in HU as (U0 & U1 & U2 & U3).
  apply all_below_4 in HD as (D0 & D1 & D2 & D3).
  cbn -[moveLine] in L0, L1, L2, L3, R0, R1, R2, R3, U0, U1, U2, U3, D0, D1, D2, D3.
  pose proof (stuck_both_ways _ _ _ _ L0 R0) as Row0.
  pose proof (stuck_both_ways _ _ _ _ L1 R1) as Row1.
  pose proof (stuck_both_ways _ _ _ _ L2 R2) as Row2.
  pose proof (stuck_both_ways _ _ _ _ L3 R3) as Row3.
  pose proof (stuck_both_ways _ _ _ _ U0 D0) as Col0.
  pose proof (stuck_both_ways _ _ _ _ U1 D1) as Col1.
  pose proof (stuck_both_ways _ _ _ _ U2 D2) as Col2.
  pose proof (stuck_both_ways _ _ _ _ U3 D3) as Col3.
  clear L0 L1 L2 L3 R0 R1 R2 R3 U0 U1 U2 U3 D0 D1 D2 D3 Hwf.
  destruct Row0 as [(-> & -> & -> & ->)|(r00 & r01 & r02 & r03 & -> & -> & -> & -> & ? & ? & ?)];
  destruct Col0 as [(? & ? & ? & ?)|(? & ? & ? & ? & ? & ? & ? & ? & ? & ? & ?)];
    simplify_eq;
  destruct Col1 as [(? & ? & ? & ?)|(? & ? & ? & ? & ? & ? & ? & ? & ? & ? & ?)];
    simplify_eq;
  destruct Col2 as [(? & ? & ? & ?)|(? & ? & ? & ? & ? & ? & ? & ? & ? & ? & ?)];
    simplify_eq;
  destruct Col3 as [(? & ? & ? & ?)|(? & ? & ? & ? & ? & ? & ? & ? & ? & ? & ?)];
    simplify_eq.
  - by left.
  - right.
    destruct Row1 as [(? & ? & ? & ?)|(? & ? & ? & ? & ? & ? & ? & ? & ? & ? & ?)];
      simplify_eq.
    destruct Row2 as [(? & ? & ? & ?)|(? & ? & ? & ? & ? & ? & ? & ? & ? & ? & ?)];
      simplify_eq.
    destruct Row3 as [(? & ? & ? & ?)|(? & ? & ? & ? & ? & ? & ? & ? & ? & ? & ?)];
      simplify_eq.
    unfold GRID_SIZE. cbn [Nat.sub]. split_and!.
    + apply all_4_4. cbn. split_and!; done.
    + apply all_4_3. cbn. split_and!; congruence.
    + apply all_3_4. cbn. split_and!; congruence.
Qed.

Lemma length_filteredLine_cons (c : Cell) (l : list Cell) :
  length (filteredLine (c :: l))
  = cellCount c + length (filteredLine l).
Proof. by destruct c. Qed.

Lemma tileCount_lines (b : GameBoard) (d : Direction) :
  wfBoard b →
  tileCount b
  = sum_list ((λ k, length (filteredLine (lineOf b d k))) <$> seq 0 GRID_SIZE).
Proof.
  intros H. board_cells b H.
  destruct d; unfold tileCount; cbn -[filteredLine];
    rewrite !length_filteredLine_cons; cbn [filteredLine length]; lia.
Qed.

Lemma moveBoard_tileCount (b : GameBoard) (d : Direction) :
  wfBoard b →
  tileCount (newBoard (moveBoard b d))
  + sum_list ((λ k, length (mergedValues (filteredLine (lineOf b d k))))
              <$> seq 0 GRID_SIZE)
  = tileCount b.
Proof.
  intros Hwf.
  rewrite (tileCount_lines _ d) by (by apply moveBoard_wf).
  rewrite (tileCount_lines b d) by done.
  assert (∀ k, k < GRID_SIZE →
            length (filteredLine (lineOf (newBoard (moveBoard b d)) d k))
            + length (mergedValues (filteredLine (lineOf b d k)))
            = length (filteredLine (lineOf b d k))) as Hline.
  { intros k Hk. rewrite moveBoard_lineOf by done.
    rewrite moveLine_spec. cbn [fst]. unfold resolvedLine.
    rewrite filteredLine_resolved. apply merge_count. }
  unfold GRID_SIZE in *. cbn [seq fmap list_fmap sum_list sum_list_with id].
  pose proof (Hline 0 ltac:(lia)). pose proof (Hline 1 ltac:(lia)).
  pose proof (Hline 2 ltac:(lia)). pose proof (Hline 3 ltac:(lia)). lia.
Qed.

Lemma tilesSatisfy_lines (P : Z → Prop) (b : GameBoard) (d : Direction) :
  wfBoard b →
  tilesSatisfy P b
  ↔ ∀ k, k < GRID_SIZE → Forall (cellSatisfies P) (lineOf b d k).
Proof.
  intros H. board_cells b H. unfold tilesSatisfy, GRID_SIZE.
  rewrite all_below_4. destruct d; cbn; rewrite !Forall_cons, !Forall_nil; tauto.
Qed.

Lemma moveBoard_tilesSatisfy (P : Z → Prop) (b : GameBoard) (d : Direction) :
  (∀ v, P v → P (2 * v)%Z) → wfBoard b →
  tilesSatisfy P b → tilesSatisfy P (newBoard (moveBoard b d)).
Proof.
  intros Hdouble Hwf Hall.
  apply (tilesSatisfy_lines P _ d); [by apply moveBoard_wf|].
  intros k Hk. rewrite moveBoard_lineOf by done.
  apply moveLine_cellSatisfies; [done|].
  by apply (tilesSatisfy_lines P b d).
Qed.

Ltac run_moveBoard_lines :=
  unfold moveBoard, forRange, lineOf, GRID_SIZE;
  cbn [seq foldl fmap list_fmap nth reverse rev_append columnOf map];
  cbv beta iota; resolve_lines; cbn -[arraysEqual Z.add].

(** X5: moving right is mirroring every row, moving left and mirroring
    back; moving down is reversing the order of the rows, moving up and
    reversing back; score and [moved] are the same. *)
Theorem moveBoard_mirror_symmetry (b : GameBoard) :
  wfBoard b →
  moveBoard b Right
  = (let out := moveBoard (reverse <$> b) Left in
     mkOutcome (reverse <$> newBoard out) (moveScore out) (moved out))
  ∧ moveBoard b Down
    = (let out := moveBoard (reverse b) Up in
       mkOutcome (reverse (newBoard out)) (moveScore out) (moved out)).
Proof.
  intros H. board_cells b H. cbn zeta.
  split; run_moveBoard_lines;
    repeat match goal with
           | E : moveLine _ = ([?w; ?x; ?y; ?z], _)
             |- context [arraysEqual [?z; ?y; ?x; ?w] [?a; ?b; ?c; ?d]] =>
               rewrite (arraysEqual_rev4 w x y z a b c d); clear E
           end;
    reflexivity.
Qed.

(** ** Spawning and new games *)

Lemma addRandomTile_shape (b : GameBoard) (d : Draw) :
  addRandomTile b d = b
  ∨ ∃ r c, (r, c) ∈ emptyCells b
           ∧ addRandomTile b d = setCell b r c (Some (randomValue (valueDraw d))).
Proof.
  unfold addRandomTile. destruct (length (emptyCells b) =? 0); [by left|].
  destruct (emptyCells b !! _) as [[r c]|] eqn:E; [|by left].
  right. exists r, c. split; [|done]. by eapply list_elem_of_lookup_2.
Qed.

Lemma addRandomTile_spawn (b : GameBoard) (d : Draw) :
  wfBoard b → validDraw d → emptyCells b ≠ [] →
  ∃ r c, r < GRID_SIZE ∧ c < GRID_SIZE ∧ cellAt b r c = None
         ∧ addRandomTile b d = setCell b r c (Some (randomValue (valueDraw d))).
Proof.
  intros Hwf (Hc0 & Hc1 & _) Hne.
  assert (0 < length (emptyCells b)) as Hn.
  { destruct (emptyCells b); [done|simpl; lia]. }
  pose proof (randomIndex_lt (cellDraw d) _ Hc0 Hc1 Hn) as Hidx.
  destruct (lookup_lt_is_Some_2 (emptyCells b) _ Hidx) as [[r c] Hrc].
  pose proof (list_elem_of_lookup_2 _ _ _ Hrc) as Hin.
  apply elem_of_emptyCells in Hin as (Hr & Hc & Hnone).
  exists r, c. split_and!; try done.
  unfold addRandomTile. rewrite Hrc.
  destruct (Nat.eqb_spec (length (emptyCells b)) 0); [lia|done].
Qed.

Lemma addRandomTile_tileCount (b : GameBoard) (d : Draw) :
  wfBoard b → validDraw d → emptyCells b ≠ [] →
  tileCount (addRandomTile b d) = S (tileCount b).
Proof.
  intros Hwf Hd Hne.
  destruct (addRandomTile_spawn b d Hwf Hd Hne) as (r & c & Hr & Hc & Hnone & ->).
  apply tileCount_setCell; [by destruct Hwf as [-> _]| |done].
  by rewrite wfBoard_row_length.
Qed.

Lemma addRandomTile_wf (b : GameBoard) (d : Draw) :
  wfBoard b → wfBoard (addRandomTile b d).
Proof.
  intros Hwf. destruct (addRandomTile_shape b d) as [->|(r & c & _ & ->)]; [done|].
  by apply setCell_wf.
Qed.

Lemma setCell_tilesSatisfy (P : Z → Prop) (b : GameBoard) (r c : nat) (x : Cell) :
  tilesSatisfy P b → cellSatisfies P x → tilesSatisfy P (setCell b r c x).
Proof.
  unfold tilesSatisfy, setCell. intros Hall Hx.
  destruct (nth_lookup_or_length b r []) as [Hin|Hout].
  - apply Forall_insert; [done|]. apply Forall_insert; [|done].
    by apply (Forall_lookup_1 _ _ _ _ Hall Hin).
  - by rewrite list_insert_ge.
Qed.

Lemma randomValue_two_or_four (r : Q) : randomValue r = 2%Z ∨ randomValue r = 4%Z.
Proof. unfold randomValue. destruct (Qlt_le_dec r (9 # 10)); auto. Qed.

Lemma addRandomTile_tilesSatisfy (P : Z → Prop) (b : GameBoard) (d : Draw) :
  P 2%Z → P 4%Z → tilesSatisfy P b → tilesSatisfy P (addRandomTile b d).
Proof.
  intros H2 H4 Hall.
  destruct (addRandomTile_shape b d) as [->|(r & c & _ & ->)]; [done|].
  apply setCell_tilesSatisfy; [done|]. simpl.
  by destruct (randomValue_two_or_four (valueDraw d)) as [-> | ->].
Qed.

Lemma emptyCells_nonempty (b : GameBoard) (r c : nat) :
  r < GRID_SIZE → c < GRID_SIZE → cellAt b r c = None → emptyCells b ≠ [].
Proof.
  intros Hr Hc Hnone Hnil.
  assert ((r, c) ∈ emptyCells b) as Hin by (by apply elem_of_emptyCells).
  rewrite Hnil in Hin. by apply not_elem_of_nil in Hin.
Qed.

Lemma tileCount_full (b : GameBoard) :
  wfBoard b → emptyCells b = [] → tileCount b = 16.
Proof.
  intros Hwf Hfull. rewrite emptyCells_nil_iff in Hfull.
  board_cells b Hwf. unfold GRID_SIZE in Hfull. apply all_4_4 in Hfull.
  cbn in Hfull. destruct_and!.
  repeat match goal with
         | H : ?x ≠ None |- _ => destruct x; [clear H|done]
         end.
  reflexivity.
Qed.

Lemma isGameOver_has_no_empty (b : GameBoard) :
  emptyCells b ≠ [] → isGameOver b = false.
Proof.
  intros Hne. destruct (isGameOver b) eqn:Hover; [|done].
  apply isGameOver_iff in Hover as (Hfull & _).
  by apply emptyCells_nil_iff in Hfull.
Qed.

Lemma wfBoard_initializeBoard : wfBoard initializeBoard.
Proof. split; [done|by repeat constructor]. Qed.

Lemma startNewGame_fields (g : Game2048) (d1 d2 : Draw) :
  startNewGame g d1 d2
  = mkGame (addRandomTile (addRandomTile initializeBoard d1) d2)
           0 false false ModeNone [] [] 2 1 0.
Proof. reflexivity. Qed.

(** X13: [startNewGame] keeps nothing of the state it is called on: the
    board is 4x4 with exactly two tiles, each 2 or 4, it is not game over,
    score and flags are cleared, mode, selection and history are empty and
    the counters are 2, 1 and 0. *)
Theorem startNewGame_fresh (g : Game2048) (d1 d2 : Draw) :
  validDraw d1 → validDraw d2 →
  let g' := startNewGame g d1 d2 in
  g' = startNewGame initialGame d1 d2
  ∧ wfBoard (board g')
  ∧ tileCount (board g') = 2
  ∧ tilesSatisfy (λ v, v = 2 ∨ v = 4)%Z (board g')
  ∧ isGameOver (board g') = false
  ∧ score g' = 0%Z ∧ gameWon g' = false ∧ gameOver g' = false
  ∧ powerupMode g' = ModeNone ∧ selectedTiles g' = [] ∧ undoStack g' = []
  ∧ undoCount g' = 2%Z ∧ swapCount g' = 1%Z ∧ deleteCount g' = 0%Z.
Proof.
  intros Hd1 Hd2 g'. subst g'. rewrite !startNewGame_fields.
  cbn [board score gameWon gameOver powerupMode selectedTiles undoStack
         undoCount swapCount deleteCount].
  set (b1 := addRandomTile initializeBoard d1).
  assert (wfBoard b1) as Hwf1 by apply addRandomTile_wf, wfBoard_initializeBoard.
  assert (tileCount b1 = 1) as Hc1.
  { apply (addRandomTile_tileCount initializeBoard d1 wfBoard_initializeBoard Hd1).
    apply (emptyCells_nonempty _ 0 0); [unfold GRID_SIZE; lia|unfold GRID_SIZE; lia|done]. }
  assert (emptyCells b1 ≠ []) as Hne1.
  { intros Hfull. apply tileCount_full in Hfull; [lia|done]. }
  assert (tileCount (addRandomTile b1 d2) = 2) as Hc2.
  { rewrite addRandomTile_tileCount by done. lia. }
  split_and!; try done.
  - by apply addRandomTile_wf.
  - apply addRandomTile_tilesSatisfy; [by left|by right|].
    apply addRandomTile_tilesSatisfy; [by left|by right|].
    unfold tilesSatisfy. by repeat constructor.
  - apply isGameOver_has_no_empty. intros Hfull.
    apply tileCount_full in Hfull; [lia|]. by apply addRandomTile_wf.
Qed.

Lemma mergedValues_nil_fixed (vs : list Z) :
  mergedValues vs = [] → slideMerge vs = vs.
Proof.
  induction vs as [|a|a b rest IH1 IH2] using list_pair_ind; simpl in *; try done.
  destruct (a =? b)%Z; [done|]. intros H. by rewrite IH2.
Qed.

Lemma filteredLine_full (line : list Cell) :
  length (filteredLine line) = length line → line = Some <$> filteredLine line.
Proof.
  induction line as [|[v|] line IH]; simpl; [done| |].
  - intros [= H]. f_equal. by apply IH.
  - intros H. pose proof (length_filteredLine line). lia.
Qed.

Lemma changed_line_has_empty (line : list Cell) :
  wfLine line → fst (moveLine line) ≠ line → None ∈ fst (moveLine line).
Proof.
  unfold wfLine. intros Hwf Hne. rewrite moveLine_spec in Hne |- *.
  cbn [fst] in *. unfold resolvedLine in *.
  pose proof (length_slideMerge (filteredLine line)) as H1.
  pose proof (length_filteredLine line) as H2.
  pose proof (merge_count (filteredLine line)) as H3.
  destruct (decide (length (slideMerge (filteredLine line)) < GRID_SIZE)) as [Hlt|Hge].
  - apply elem_of_app. right.
    destruct (GRID_SIZE - length (slideMerge (filteredLine line))) as [|n] eqn:E; [lia|].
    simpl. left.
  - exfalso. apply Hne.
    assert (mergedValues (filteredLine line) = []) as Hnil.
    { destruct (mergedValues (filteredLine line)); [done|simpl in H3; lia]. }
    rewrite (mergedValues_nil_fixed _ Hnil).
    replace (GRID_SIZE - length (filteredLine line)) with 0 by lia.
    simpl. rewrite app_nil_r. symmetry. apply filteredLine_full. lia.
Qed.

Ltac find_empty_cell :=
  first [ apply (emptyCells_nonempty _ 0 0); [unfold GRID_SIZE; lia|unfold GRID_SIZE; lia|done]
        | apply (emptyCells_nonempty _ 0 1); [unfold GRID_SIZE; lia|unfold GRID_SIZE; lia|done]
        | apply (emptyCells_nonempty _ 0 2); [unfold GRID_SIZE; lia|unfold GRID_SIZE; lia|done]
        | apply (emptyCells_nonempty _ 0 3); [unfold GRID_SIZE; lia|unfold GRID_SIZE; lia|done]
        | apply (emptyCells_nonempty _ 1 0); [unfold GRID_SIZE; lia|unfold GRID_SIZE; lia|done]
        | apply (emptyCells_nonempty _ 1 1); [unfold GRID_SIZE; lia|unfold GRID_SIZE; lia|done]
        | apply (emptyCells_nonempty _ 1 2); [unfold GRID_SIZE; lia|unfold GRID_SIZE; lia|done]
        | apply (emptyCells_nonempty _ 1 3); [unfold GRID_SIZE; lia|unfold GRID_SIZE; lia|done]
        | apply (emptyCells_nonempty _ 2 0); [unfold GRID_SIZE; lia|unfold GRID_SIZE; lia|done]
        | apply (emptyCells_nonempty _ 2 1); [unfold GRID_SIZE; lia|unfold GRID_SIZE; lia|done]
        | apply (emptyCells_nonempty _ 2 2); [unfold GRID_SIZE; lia|unfold GRID_SIZE; lia|done]
        | apply (emptyCells_nonempty _ 2 3); [unfold GRID_SIZE; lia|unfold GRID_SIZE; lia|done]
        | apply (emptyCells_nonempty _ 3 0); [unfold GRID_SIZE; lia|unfold GRID_SIZE; lia|done]
        | apply (emptyCells_nonempty _ 3 1); [unfold GRID_SIZE; lia|unfold GRID_SIZE; lia|done]
        | apply (emptyCells_nonempty _ 3 2); [unfold GRID_SIZE; lia|unfold GRID_SIZE; lia|done]
        | apply (emptyCells_nonempty _ 3 3); [unfold GRID_SIZE; lia|unfold GRID_SIZE; lia|done] ].

Lemma line_empty_board_empty (b : GameBoard) (d : Direction) (k : nat) :
  wfBoard b → k < GRID_SIZE → None ∈ lineOf b d k → emptyCells b ≠ [].
Proof.
  intros Hwf Hk Hin. board_cells b Hwf. small_index k Hk;
    destruct d; cbn in Hin;
    repeat (apply elem_of_cons in Hin as [Hin|Hin]);
    try (by apply not_elem_of_nil in Hin); subst; find_empty_cell.
Qed.

Lemma changed_move_leaves_empty (b : GameBoard) (d : Direction) :
  wfBoard b → moved (moveBoard b d) = true →
  emptyCells (newBoard (moveBoard b d)) ≠ [].
Proof.
  intros Hwf Hmoved. apply moved_true_iff in Hmoved as (k & Hk & Hne); [|done].
  apply (line_empty_board_empty _ d k); [by apply moveBoard_wf|done|].
  rewrite moveBoard_lineOf by done.
  apply changed_line_has_empty; [|done].
  board_cells b Hwf. small_index k Hk; by destruct d.
Qed.

Lemma processMove_board (g : Game2048) (dir : Direction) (d : Draw) :
  moved (moveBoard (board g) dir) = true →
  board (fst (processMove g dir d))
  = addRandomTile (newBoard (moveBoard (board g) dir)) d.
Proof.
  intros Hmoved. unfold processMove. rewrite Hmoved. cbn [negb fst].
  generalize (addRandomTile (newBoard (moveBoard (board g) dir)) d). intros bt.
  split_when; reflexivity.
Qed.

(** X12: the board a changed move produces always has an empty cell, so
    [processMove] spawns exactly one tile into an empty cell of it; the
    board never gains more than one tile in a turn. *)
Theorem changed_move_spawns_one_tile (g : Game2048) (dir : Direction) (d : Draw) :
  wfBoard (board g) → validDraw d → moved (moveBoard (board g) dir) = true →
  let merged := newBoard (moveBoard (board g) dir) in
  let g' := fst (processMove g dir d) in
  emptyCells merged ≠ []
  ∧ tileCount (board g') = S (tileCount merged)
  ∧ tileCount (board g') ≤ S (tileCount (board g))
  ∧ ∃ r c, r < GRID_SIZE ∧ c < GRID_SIZE ∧ cellAt merged r c = None
           ∧ board g' = setCell merged r c (Some (randomValue (valueDraw d))).
Proof.
  intros Hwf Hd Hmoved merged g'. subst merged g'.
  pose proof (changed_move_leaves_empty _ _ Hwf Hmoved) as Hne.
  pose proof (moveBoard_wf _ dir Hwf) as Hwf'.
  rewrite processMove_board by done.
  split_and!; [done| | |].
  - by apply addRandomTile_tileCount.
  - rewrite addRandomTile_tileCount by done.
    pose proof (moveBoard_tileCount _ dir Hwf). lia.
  - by apply addRandomTile_spawn.
Qed.

(** ** Swap and delete *)

Lemma nth_imap {A B : Type} (f : nat → A → B) (l : list A) (i : nat) (d : A) (e : B) :
  i < length l → nth i (imap f l) e = f i (nth i l d).
Proof.
  intros Hi. rewrite !nth_lookup, list_lookup_imap.
  destruct (lookup_lt_is_Some_2 l i Hi) as [x ->]. done.
Qed.

Lemma cellAt_imap (F : nat → nat → Cell → Cell) (b : GameBoard) (r c : nat) :
  r < length b → c < length (nth r b []) →
  cellAt (imap (λ rIdx row, imap (λ cIdx cell, F rIdx cIdx cell) row) b) r c
  = F r c (cellAt b r c).
Proof.
  intros Hr Hc. unfold cellAt.
  rewrite (nth_imap _ b r [] []) by done.
  by rewrite (nth_imap _ _ c None None).
Qed.

Lemma truthy_in_range (b : GameBoard) (r c : nat) :
  wfBoard b → truthy (cellAt b r c) = true → r < GRID_SIZE ∧ c < GRID_SIZE.
Proof.
  intros [Hlen Hrows] Ht. unfold cellAt in Ht.
  destruct (decide (r < GRID_SIZE)) as [Hr|Hr].
  - split; [done|]. destruct (decide (c < GRID_SIZE)) as [Hc|Hc]; [done|].
    rewrite (nth_overflow (nth r b [])) in Ht; [done|].
    rewrite wfBoard_row_length by done. lia.
  - rewrite (nth_overflow b) in Ht by lia. by destruct c.
Qed.

(** The board a swap of the selected tile with the clicked one builds. *)
Lemma handleTileClick_swap (g : Game2048) (row col firstRow firstCol : nat)
    (d1 d2 : Draw) :
  powerupMode g = ModeSwap → selectedTiles g = [(firstRow, firstCol)] →
  row < length (board g) → truthy (cellAt (board g) row col) = true →
  (firstRow, firstCol) ≠ (row, col) →
  ∃ b', handleTileClick g row col d1 d2
        = Some (mkGame b' (score g) (gameWon g) (gameOver g) ModeNone []
                  (pushSnapshot (mkGameState (board g) (score g)) (undoStack g))
                  (undoCount g) (swapCount g - 1) (deleteCount g))
        ∧ ∀ r c, r < length (board g) → c < length (nth r (board g) []) →
            cellAt b' r c
            = if (r =? firstRow) && (c =? firstCol) then cellAt (board g) row col
              else if (r =? row) && (c =? col) then cellAt (board g) firstRow firstCol
              else cellAt (board g) r c.
Proof.
  intros Hmode Hsel Hrow Ht Hne. unfold handleTileClick.
  rewrite Hmode, Hsel, Ht. cbn [bool_decide decide_rel negb].
  rewrite bool_decide_eq_false_2 by done.
  destruct (Nat.leb_spec (length (board g)) row) as [|_]; [lia|].
  assert ((firstRow =? row) && (firstCol =? col) = false) as ->.
  { apply andb_false_iff.
    destruct (Nat.eqb_spec firstRow row), (Nat.eqb_spec firstCol col); auto.
    subst. done. }
  eexists. split; [reflexivity|].
  intros r c Hr Hc.
  exact (cellAt_imap
           (λ rIdx cIdx cell,
              if (rIdx =? firstRow) && (cIdx =? firstCol)
              then cellAt (board g) row col
              else if (rIdx =? row) && (cIdx =? col)
                   then cellAt (board g) firstRow firstCol
                   else cell)
           (board g) r c Hr Hc).
Qed.

(** X14: in swap mode with one tile selected, a click on another tile
    exchanges the values of the two cells and changes no other cell; it
    spends one swap, pushes a snapshot, clears mode and selection and
    leaves score, flags and the other counters alone. *)
Theorem swap_exchanges_two_tiles (g : Game2048) (row col firstRow firstCol : nat)
    (d1 d2 : Draw) :
  wfBoard (board g) →
  powerupMode g = ModeSwap → selectedTiles g = [(firstRow, firstCol)] →
  firstRow < GRID_SIZE → firstCol < GRID_SIZE →
  truthy (cellAt (board g) row col) = true →
  (firstRow, firstCol) ≠ (row, col) →
  ∃ g', handleTileClick g row col d1 d2 = Some g'
    ∧ cellAt (board g') firstRow firstCol = cellAt (board g) row col
    ∧ cellAt (board g') row col = cellAt (board g) firstRow firstCol
    ∧ (∀ r c, r < GRID_SIZE → c < GRID_SIZE →
         (r, c) ≠ (firstRow, firstCol) → (r, c) ≠ (row, col) →
         cellAt (board g') r c = cellAt (board g) r c)
    ∧ swapCount g' = (swapCount g - 1)%Z
    ∧ undoStack g' = pushSnapshot (mkGameState (board g) (score g)) (undoStack g)
    ∧ powerupMode g' = ModeNone ∧ selectedTiles g' = []
    ∧ score g' = score g ∧ gameWon g' = gameWon g ∧ gameOver g' = gameOver g
    ∧ undoCount g' = undoCount g ∧ deleteCount g' = deleteCount g.
Proof.
  intros Hwf Hmode Hsel Hfr Hfc Ht Hne.
  destruct (truthy_in_range _ _ _ Hwf Ht) as [Hrow Hcol].
  assert (∀ r, r < GRID_SIZE → r < length (board g)) as Hlen.
  { intros r Hr. by destruct Hwf as [-> _]. }
  assert (∀ r c, r < GRID_SIZE → c < GRID_SIZE → c < length (nth r (board g) []))
    as Hlen'.
  { intros r c Hr Hc. by rewrite wfBoard_row_length. }
  destruct (handleTileClick_swap g row col firstRow firstCol d1 d2)
    as (b' & Hclick & Hcells); auto.
  eexists. split; [exact Hclick|].
  cbn [board score gameWon gameOver powerupMode selectedTiles undoStack
         undoCount swapCount deleteCount].
  split_and!; try done.
  - rewrite Hcells by auto. by rewrite !Nat.eqb_refl.
  - rewrite Hcells by auto. rewrite !Nat.eqb_refl.
    destruct (Nat.eqb_spec row firstRow), (Nat.eqb_spec col firstCol);
      simpl; congruence.
  - intros r c Hr Hc Hne1 Hne2. rewrite Hcells by auto.
    destruct (Nat.eqb_spec r firstRow), (Nat.eqb_spec c firstCol),
      (Nat.eqb_spec r row), (Nat.eqb_spec c col); simpl; congruence.
Qed.

Lemma cellAt_map (f : Cell → Cell) (b : GameBoard) (r c : nat) :
  f None = None → cellAt (map (map f) b) r c = f (cellAt b r c).
Proof.
  intros Hf. unfold cellAt.
  change (@nil Cell) with (map f []) at 1. rewrite map_nth.
  rewrite <- Hf at 1. by rewrite map_nth.
Qed.

Lemma tileCount_addRandomTile_le (b : GameBoard) (d : Draw) :
  wfBoard b → tileCount (addRandomTile b d) ≤ S (tileCount b).
Proof.
  intros Hwf. destruct (addRandomTile_shape b d) as [->|(r & c & Hin & ->)]; [lia|].
  apply elem_of_emptyCells in Hin as (Hr & Hc & Hnone).
  rewrite tileCount_setCell; [lia|by destruct Hwf as [-> _]| |done].
  by rewrite wfBoard_row_length.
Qed.

Lemma not_full_not_over (b : GameBoard) :
  wfBoard b → tileCount b < 16 → isGameOver b = false.
Proof.
  intros Hwf Hlt. apply isGameOver_has_no_empty. intros Hfull.
  apply tileCount_full in Hfull; [lia|done].
Qed.

Lemma map_map_wf (f : Cell → Cell) (b : GameBoard) :
  wfBoard b → wfBoard (map (map f) b).
Proof.
  intros [Hlen Hrows]. split; [by rewrite length_map|].
  apply Forall_forall. intros row Hin.
  apply list_elem_of_In, in_map_iff in Hin as (row' & <- & Hin').
  unfold wfLine. rewrite length_map.
  rewrite Forall_forall in Hrows. apply Hrows. by apply list_elem_of_In.
Qed.

Lemma existsb_cells_true (p : Cell → bool) (b : GameBoard) (r c : nat) :
  r < length b → c < length (nth r b []) → p (cellAt b r c) = true →
  existsb (λ row, existsb p row) b = true.
Proof.
  intros Hr Hc Hp. apply existsb_exists. exists (nth r b []).
  split; [by apply nth_In|]. apply existsb_exists. exists (cellAt b r c).
  split; [by apply nth_In|done].
Qed.

Lemma existsb_cells_false (p : Cell → bool) (b : GameBoard) :
  wfBoard b →
  (∀ r c, r < GRID_SIZE → c < GRID_SIZE → p (cellAt b r c) = false) →
  existsb (λ row, existsb p row) b = false.
Proof.
  intros Hwf Hall.
  destruct (existsb (λ row, existsb p row) b) eqn:E; [|done].
  apply existsb_exists in E as (row & Hrow & E).
  apply existsb_exists in E as (cell & Hcell & Hp).
  apply (In_nth _ _ []) in Hrow as (r & Hr & <-).
  apply (In_nth _ _ None) in Hcell as (c & Hc & <-).
  assert (r < GRID_SIZE) as Hr' by (by destruct Hwf as [<- _]).
  rewrite wfBoard_row_length in Hc by done.
  specialize (Hall r c Hr' Hc). unfold cellAt in Hall. congruence.
Qed.

Lemma all_empty_initializeBoard (b : GameBoard) :
  wfBoard b → (∀ r c, r < GRID_SIZE → c < GRID_SIZE → cellAt b r c = None) →
  b = initializeBoard.
Proof.
  intros Hwf Hall. board_cells b Hwf. unfold GRID_SIZE in Hall.
  apply all_4_4 in Hall. cbn in Hall. destruct_and!. by subst.
Qed.

Lemma handleTileClick_delete (g : Game2048) (row col : nat) (d1 d2 : Draw) :
  powerupMode g = ModeDelete → row < length (board g) →
  truthy (cellAt (board g) row col) = true → (0 < deleteCount g)%Z →
  let cleared :=
    map (λ r, map (λ cell,
                     if strictEq cell (cellAt (board g) row col) then None else cell) r)
        (board g) in
  let finalBoard :=
    if negb (existsb (λ row, existsb (λ cell, negb (strictEq cell None)) row) cleared)
    then addRandomTile (addRandomTile cleared d1) d2
    else cleared in
  handleTileClick g row col d1 d2
  = Some (mkGame finalBoard (score g) (gameWon g)
            (if isGameOver finalBoard then true else gameOver g) ModeNone []
            (pushSnapshot (mkGameState (board g) (score g)) (undoStack g))
            (undoCount g) (swapCount g) (deleteCount g - 1)).
Proof.
  intros Hmode Hrow Ht Hcount cleared finalBoard. unfold handleTileClick.
  rewrite Hmode, Ht. rewrite bool_decide_eq_false_2 by done.
  destruct (Nat.leb_spec (length (board g)) row) as [|_]; [lia|].
  apply Z.ltb_lt in Hcount. rewrite Hcount. cbn [negb andb].
  fold cleared. fold finalBoard.
  destruct (isGameOver finalBoard); reflexivity.
Qed.

Lemma delete_final_board (g : Game2048) (row col : nat) (d1 d2 : Draw) (v : Z) :
  wfBoard (board g) → cellAt (board g) row col = Some v → v ≠ 0%Z →
  let cleared :=
    map (λ r, map (λ cell,
                     if strictEq cell (cellAt (board g) row col) then None else cell) r)
        (board g) in
  let finalBoard :=
    if negb (existsb (λ row, existsb (λ cell, negb (strictEq cell None)) row) cleared)
    then addRandomTile (addRandomTile cleared d1) d2
    else cleared in
  wfBoard cleared
  ∧ (∀ r c, cellAt cleared r c
            = if decide (cellAt (board g) r c = Some v) then None
              else cellAt (board g) r c)
  ∧ ((∃ r c w, r < GRID_SIZE ∧ c < GRID_SIZE ∧ cellAt (board g) r c = Some w ∧ w ≠ v)
     → finalBoard = cleared)
  ∧ ((∀ r c, r < GRID_SIZE → c < GRID_SIZE →
        cellAt (board g) r c = None ∨ cellAt (board g) r c = Some v)
     → finalBoard = addRandomTile (addRandomTile initializeBoard d1) d2)
  ∧ isGameOver finalBoard = false.
Proof.
  intros Hwf Hcell Hv cleared finalBoard.
  assert (truthy (cellAt (board g) row col) = true) as Ht.
  { rewrite Hcell. cbn [truthy]. apply negb_true_iff. by apply Z.eqb_neq. }
  destruct (truthy_in_range _ _ _ Hwf Ht) as [Hrow Hcol].
  assert (wfBoard cleared) as Hwfc by (by apply map_map_wf).
  assert (∀ r c, cellAt cleared r c
                 = if decide (cellAt (board g) r c = Some v) then None
                   else cellAt (board g) r c) as Hcells.
  { intros r c. subst cleared. rewrite Hcell.
    rewrite (cellAt_map (λ cell, if strictEq cell (Some v) then None else cell))
      by (by destruct (strictEq None (Some v))).
    unfold strictEq. case_bool_decide; by case_decide. }
  assert (∀ r, r < GRID_SIZE → r < length cleared) as Hlen.
  { intros r Hr. by destruct Hwfc as [-> _]. }
  assert (∀ r c, r < GRID_SIZE → c < GRID_SIZE → c < length (nth r cleared []))
    as Hlen'.
  { intros r c Hr Hc. by rewrite wfBoard_row_length. }
  split; [done|]. split; [done|]. subst finalBoard.
  destruct (existsb (λ row, existsb (λ cell, negb (strictEq cell None)) row) cleared)
    eqn:Hany; cbn [negb].
  - split; [done|]. split.
    + intros Hall. exfalso.
      rewrite existsb_cells_false in Hany; [done|done|].
      intros r c Hr Hc. cbv beta. rewrite Hcells. apply negb_false_iff, strictEq_true.
      case_decide; [done|]. by destruct (Hall r c Hr Hc).
    + apply isGameOver_has_no_empty. apply (emptyCells_nonempty _ row col); try done.
      rewrite Hcells. by rewrite decide_True.
  - assert (cleared = initializeBoard) as Hinit.
    { apply all_empty_initializeBoard; [done|]. intros r c Hr Hc.
      destruct (cellAt cleared r c) as [w|] eqn:E; [|done].
      rewrite (existsb_cells_true _ cleared r c) in Hany; auto; [done|].
      by rewrite E. }
    rewrite Hinit. split; [|split; [done|]].
    + intros (r & c & w & Hr & Hc & Hw & Hne).
      assert (cellAt cleared r c = Some w) as E.
      { rewrite Hcells, Hw. rewrite decide_False; [done|]. by intros [= ->]. }
      rewrite Hinit in E. exfalso. unfold GRID_SIZE in *.
      destruct r as [|[|[|[|]]]]; try lia; destruct c as [|[|[|[|]]]]; try lia; done.
    + apply not_full_not_over.
      * by apply addRandomTile_wf, addRandomTile_wf, wfBoard_initializeBoard.
      * pose proof (tileCount_addRandomTile_le initializeBoard d1
                      wfBoard_initializeBoard) as H1.
        pose proof (tileCount_addRandomTile_le (addRandomTile initializeBoard d1) d2
                      (addRandomTile_wf _ _ wfBoard_initializeBoard)) as H2.
        change (tileCount initializeBoard) with 0 in H1. lia.
Qed.

Lemma truthy_Some (x : Cell) :
  truthy x = true ↔ ∃ v, x = Some v ∧ v ≠ 0%Z.
Proof.
  destruct x as [v|]; simpl.
  - rewrite negb_true_iff, Z.eqb_neq. split; [eauto|]. by intros (? & [= <-] & ?).
  - split; [done|]. by intros (? & ? & ?).
Qed.

Lemma two_spawns_count (d1 d2 : Draw) :
  validDraw d1 → validDraw d2 →
  tileCount (addRandomTile (addRandomTile initializeBoard d1) d2) = 2.
Proof.
  intros Hd1 Hd2.
  assert (tileCount (addRandomTile initializeBoard d1) = 1) as Hc1.
  { apply (addRandomTile_tileCount initializeBoard d1 wfBoard_initializeBoard Hd1).
    apply (emptyCells_nonempty _ 0 0); [unfold GRID_SIZE; lia|unfold GRID_SIZE; lia|done]. }
  rewrite addRandomTile_tileCount; [lia|by apply addRandomTile_wf, wfBoard_initializeBoard|done|].
  intros Hfull. apply tileCount_full in Hfull; [lia|].
  by apply addRandomTile_wf, wfBoard_initializeBoard.
Qed.

(** X15: in delete mode with a delete left, a click on a tile of value [v]
    empties every cell holding [v] and changes no other cell, when a tile
    of another value remains; it spends one delete, pushes a snapshot and
    clears mode and selection. *)
Theorem delete_clears_value (g : Game2048) (row col : nat) (d1 d2 : Draw) (v : Z) :
  wfBoard (board g) → powerupMode g = ModeDelete → (0 < deleteCount g)%Z →
  cellAt (board g) row col = Some v → v ≠ 0%Z →
  (∃ r c w, r < GRID_SIZE ∧ c < GRID_SIZE ∧ cellAt (board g) r c = Some w ∧ w ≠ v) →
  ∃ g', handleTileClick g row col d1 d2 = Some g'
    ∧ (∀ r c, cellAt (board g') r c
              = if decide (cellAt (board g) r c = Some v) then None
                else cellAt (board g) r c)
    ∧ wfBoard (board g')
    ∧ deleteCount g' = (deleteCount g - 1)%Z
    ∧ undoStack g' = pushSnapshot (mkGameState (board g) (score g)) (undoStack g)
    ∧ powerupMode g' = ModeNone ∧ selectedTiles g' = []
    ∧ score g' = score g ∧ gameWon g' = gameWon g ∧ gameOver g' = gameOver g
    ∧ undoCount g' = undoCount g ∧ swapCount g' = swapCount g.
Proof.
  intros Hwf Hmode Hcount Hcell Hv Hother.
  assert (truthy (cellAt (board g) row col) = true) as Ht
    by (apply truthy_Some; eauto).
  destruct (truthy_in_range _ _ _ Hwf Ht) as [Hrow _].
  assert (row < length (board g)) as Hrow' by (by destruct Hwf as [-> _]).
  destruct (delete_final_board g row col d1 d2 v Hwf Hcell Hv)
    as (Hwfc & Hcells & Hkeep & _ & Hover).
  eexists. split; [by apply handleTileClick_delete|].
  cbn [board score gameWon gameOver powerupMode selectedTiles undoStack
         undoCount swapCount deleteCount].
  rewrite Hover, (Hkeep Hother). split_and!; done.
Qed.

(** X16: when the clicked value is the only value on the board, the delete
    empties the board and spawns two tiles as a new game does, so the board
    ends with exactly two tiles. *)
Theorem delete_last_value_respawns (g : Game2048) (row col : nat) (d1 d2 : Draw)
    (v : Z) :
  wfBoard (board g) → powerupMode g = ModeDelete → (0 < deleteCount g)%Z →
  cellAt (board g) row col = Some v → v ≠ 0%Z →
  (∀ r c, r < GRID_SIZE → c < GRID_SIZE →
     cellAt (board g) r c = None ∨ cellAt (board g) r c = Some v) →
  validDraw d1 → validDraw d2 →
  ∃ g', handleTileClick g row col d1 d2 = Some g'
    ∧ board g' = board (startNewGame g d1 d2)
    ∧ tileCount (board g') = 2
    ∧ deleteCount g' = (deleteCount g - 1)%Z
    ∧ undoStack g' = pushSnapshot (mkGameState (board g) (score g)) (undoStack g)
    ∧ score g' = score g ∧ gameOver g' = gameOver g.
Proof.
  intros Hwf Hmode Hcount Hcell Hv Hall Hd1 Hd2.
  assert (truthy (cellAt (board g) row col) = true) as Ht
    by (apply truthy_Some; eauto).
  destruct (truthy_in_range _ _ _ Hwf Ht) as [Hrow _].
  assert (row < length (board g)) as Hrow' by (by destruct Hwf as [-> _]).
  destruct (delete_final_board g row col d1 d2 v Hwf Hcell Hv)
    as (_ & _ & _ & Hspawn & Hover).
  eexists. split; [by apply handleTileClick_delete|].
  cbn [board score gameWon gameOver powerupMode selectedTiles undoStack
         undoCount swapCount deleteCount].
  rewrite Hover, (Hspawn Hall), startNewGame_fields. cbn [board].
  split_and!; try done. by apply two_spawns_count.
Qed.

(** X17: a tile click never changes [gameOver], [gameWon], the score or the
    undo counter; the game-over test of the delete branch never fires,
    the board it tests having an empty cell. *)
Theorem tile_click_keeps_flags (g g' : Game2048) (row col : nat) (d1 d2 : Draw) :
  wfBoard (board g) → handleTileClick g row col d1 d2 = Some g' →
  gameOver g' = gameOver g ∧ gameWon g' = gameWon g
  ∧ score g' = score g ∧ undoCount g' = undoCount g.
Proof.
  intros Hwf Hclick.
  destruct (powerupMode g) eqn:Hmode.
  - unfold handleTileClick in Hclick. rewrite Hmode in Hclick.
    rewrite bool_decide_eq_true_2 in Hclick by done. by simplify_eq.
  - unfold handleTileClick in Hclick. rewrite Hmode in Hclick.
    repeat case_match; by simplify_eq.
  - destruct (decide (row < length (board g)
                      ∧ truthy (cellAt (board g) row col) = true
                      ∧ (0 < deleteCount g)%Z)) as [(Hrow & Ht & Hcount)|Hno].
    + apply truthy_Some in Ht as Hv. destruct Hv as (v & Hcell & Hv).
      rewrite handleTileClick_delete in Hclick by done.
      destruct (delete_final_board g row col d1 d2 v Hwf Hcell Hv)
        as (_ & _ & _ & _ & Hover).
      rewrite Hover in Hclick. by simplify_eq.
    + unfold handleTileClick in Hclick. rewrite Hmode in Hclick.
      rewrite bool_decide_eq_false_2 in Hclick by done.
      destruct (Nat.leb_spec (length (board g)) row); [done|].
      destruct (truthy (cellAt (board g) row col)) eqn:Ht; cbn [negb] in Hclick;
        [|by simplify_eq].
      destruct (Z.ltb_spec 0 (deleteCount g)); cbn [andb] in Hclick;
        [|by simplify_eq].
      destruct Hno. split_and!; (lia || done).
Qed.

(** ** Undo and the invariants of the session *)

Lemma pushSnapshot_pop (snap : GameState) (st : list GameState) :
  take (length (pushSnapshot snap st) - 1) (pushSnapshot snap st)
  = drop (length st - 4) st.
Proof.
  rewrite length_pushSnapshot. unfold pushSnapshot.
  rewrite take_app_le by (rewrite length_drop; lia).
  apply take_ge. rewrite length_drop. lia.
Qed.

Lemma handleUndo_restores (g : Game2048) (snap : GameState) (st : list GameState) :
  undoStack g = pushSnapshot snap st → (0 < undoCount g)%Z →
  handleUndo g
  = mkGame (gsBoard snap) (gsScore snap) false false ModeNone []
           (drop (length st - 4) st)
           (undoCount g - 1) (swapCount g) (deleteCount g).
Proof.
  intros Hst Hcount.
  rewrite (handleUndo_pops g snap Hcount) by (rewrite Hst; apply pushSnapshot_last).
  by rewrite Hst, pushSnapshot_pop.
Qed.

Lemma last_drop {A : Type} (l : list A) (k : nat) (x : A) :
  l !! (length l - 1) = Some x → k < length l →
  drop k l !! (length (drop k l) - 1) = Some x.
Proof.
  intros Hlast Hk. rewrite lookup_drop, length_drop.
  by replace (k + (length l - k - 1)) with (length l - 1) by lia.
Qed.

Lemma processMove_counts (g : Game2048) (dir : Direction) (d : Draw) :
  (swapCount g <= swapCount (fst (processMove g dir d)))%Z
  ∧ (deleteCount g <= deleteCount (fst (processMove g dir d)))%Z.
Proof.
  unfold processMove. destruct (moved (moveBoard (board g) dir)); cbn [negb fst].
  - generalize (addRandomTile (newBoard (moveBoard (board g) dir)) d). intros bt.
    generalize (isGameWon bt && negb (gameWon g)) (isGameOver bt). intros w o.
    unfold MAX_SWAP_COUNT, MAX_DELETE_COUNT.
    destruct (Z.ltb_spec (swapCount g) 2), (Z.ltb_spec (deleteCount g) 1);
      rewrite ?andb_false_r; split_when; cbn; lia.
  - cbn. lia.
Qed.

(** X18: with two undos left, two moves followed by two undos give back
    the grid and score held before the first move, the first undo those
    held between the two moves. *)
Theorem two_moves_two_undos (g : Game2048) (dir1 dir2 : Direction) (d1 d2 : Draw) :
  (1 < undoCount g)%Z →
  let g1 := fst (processMove g dir1 d1) in
  let g2 := fst (processMove g1 dir2 d2) in
  board (handleUndo g2) = board g1 ∧ score (handleUndo g2) = score g1
  ∧ board (handleUndo (handleUndo g2)) = board g
  ∧ score (handleUndo (handleUndo g2)) = score g
  ∧ undoCount (handleUndo (handleUndo g2)) = (undoCount g2 - 2)%Z.
Proof.
  intros Hcount g1 g2.
  pose proof (processMove_undoCount g dir1 d1) as H1.
  pose proof (processMove_undoCount g1 dir2 d2) as H2.
  fold g1 in H1. fold g2 in H2.
  assert (undoStack g1
          = pushSnapshot (mkGameState (board g) (score g)) (undoStack g)) as Hst1
    by apply processMove_undoStack.
  assert (undoStack g2
          = pushSnapshot (mkGameState (board g1) (score g1)) (undoStack g1)) as Hst2
    by apply processMove_undoStack.
  rewrite (handleUndo_restores g2 _ _ Hst2) by lia.
  cbn [board score]. split; [done|]. split; [done|].
  rewrite (handleUndo_pops _ (mkGameState (board g) (score g))).
  - cbn [board score undoCount]. split_and!; try done. lia.
  - cbn [undoCount]. lia.
  - cbn [undoStack]. apply last_drop.
    + rewrite Hst1. apply pushSnapshot_last.
    + rewrite Hst1, length_pushSnapshot. lia.
Qed.

(** X19: a move followed by an undo restores grid and score, clears flags,
    mode and selection and restores the history when it held at most 4
    snapshots; a fifth, oldest snapshot is lost.  When the move changed
    nothing the undo still costs one use. *)
Theorem move_then_undo_history (g : Game2048) (dir : Direction) (d : Draw) :
  (0 < undoCount g)%Z →
  let g' := handleUndo (fst (processMove g dir d)) in
  board g' = board g ∧ score g' = score g
  ∧ gameWon g' = false ∧ gameOver g' = false
  ∧ powerupMode g' = ModeNone ∧ selectedTiles g' = []
  ∧ (swapCount g <= swapCount g')%Z ∧ (deleteCount g <= deleteCount g')%Z
  ∧ undoStack g' = drop (length (undoStack g) - 4) (undoStack g)
  ∧ (length (undoStack g) ≤ 4 → undoStack g' = undoStack g)
  ∧ (moved (moveBoard (board g) dir) = false →
     undoCount g' = (undoCount g - 1)%Z).
Proof.
  intros Hcount g'. subst g'.
  pose proof (processMove_undoCount g dir d) as H1.
  pose proof (processMove_counts g dir d) as [H2 H3].
  rewrite (handleUndo_restores _ _ _ (processMove_undoStack g dir d)) by lia.
  cbn [board score gameWon gameOver powerupMode selectedTiles undoStack
         undoCount swapCount deleteCount].
  split_and!; try done.
  - intros Hlen. replace (length (undoStack g) - 4) with 0 by lia. apply drop_0.
  - intros Hmoved. by rewrite processMove_rejected.
Qed.

Lemma handleTileClick_acts (g g' : Game2048) (row col : nat) (d1 d2 : Draw) :
  handleTileClick g row col d1 d2 = Some g' →
  (board g' = board g ∧ undoStack g' = undoStack g
   ∧ swapCount g' = swapCount g ∧ deleteCount g' = deleteCount g)
  ∨ (undoStack g' = pushSnapshot (mkGameState (board g) (score g)) (undoStack g)
     ∧ ((swapCount g' = swapCount g - 1 ∧ deleteCount g' = deleteCount g)
        ∨ (swapCount g' = swapCount g ∧ deleteCount g' = deleteCount g - 1))%Z).
Proof.
  unfold handleTileClick. intros H.
  repeat case_match; simplify_eq; try (by left); right; split_when;
    (split; [reflexivity|]); ((by left) || (by right)).
Qed.

Lemma handleTileClick_undoCount (g g' : Game2048) (row col : nat) (d1 d2 : Draw) :
  handleTileClick g row col d1 d2 = Some g' → undoCount g' = undoCount g.
Proof.
  unfold handleTileClick. intros H.
  repeat case_match; simplify_eq; try done; split_when; reflexivity.
Qed.

(** X20: a swap or delete that changed the board is undone by a following
    undo, which restores grid and score; the swap or delete spent is not
    given back. *)
Theorem powerup_then_undo (g g' : Game2048) (row col : nat) (d1 d2 : Draw) :
  handleTileClick g row col d1 d2 = Some g' → board g' ≠ board g →
  (0 < undoCount g)%Z →
  let g'' := handleUndo g' in
  board g'' = board g ∧ score g'' = score g
  ∧ undoCount g'' = (undoCount g - 1)%Z
  ∧ swapCount g'' = swapCount g' ∧ deleteCount g'' = deleteCount g'
  ∧ (swapCount g'' + deleteCount g'' = swapCount g + deleteCount g - 1)%Z
  ∧ undoStack g'' = drop (length (undoStack g) - 4) (undoStack g).
Proof.
  intros Hclick Hboard Hcount g''. subst g''.
  pose proof (handleTileClick_undoCount _ _ _ _ _ _ Hclick) as Hu.
  destruct (handleTileClick_acts _ _ _ _ _ _ Hclick)
    as [(Hsame & _)|(Hst & Hspent)]; [done|].
  rewrite (handleUndo_restores _ _ _ Hst) by lia.
  cbn [board score undoStack undoCount swapCount deleteCount].
  split_and!; try done; lia.
Qed.

Lemma pushSnapshot_Forall (P : GameState → Prop) (snap : GameState)
    (st : list GameState) :
  P snap → Forall P st → Forall P (pushSnapshot snap st).
Proof.
  intros Hsnap Hst. unfold pushSnapshot. apply Forall_app. split.
  - by apply Forall_drop.
  - by constructor.
Qed.

Lemma cellAt_cellSatisfies (P : Z → Prop) (b : GameBoard) (r c : nat) :
  tilesSatisfy P b → cellSatisfies P (cellAt b r c).
Proof.
  intros Hall. unfold cellAt.
  destruct (nth_lookup_or_length b r []) as [Hr|Hr].
  - pose proof (Forall_lookup_1 _ _ _ _ Hall Hr) as Hrow.
    destruct (nth_lookup_or_length (nth r b []) c None) as [Hc|Hc].
    + by apply (Forall_lookup_1 _ _ _ _ Hrow Hc).
    + by rewrite (nth_overflow (nth r b [])).
  - rewrite (nth_overflow b) by done. by destruct c.
Qed.

Lemma imap_goodBoard (F : nat → nat → Cell → Cell) (b : GameBoard) :
  (∀ r c x, cellSatisfies isTileValue x → cellSatisfies isTileValue (F r c x)) →
  goodBoard b →
  goodBoard (imap (λ rIdx row, imap (λ cIdx cell, F rIdx cIdx cell) row) b).
Proof.
  intros HF [[Hlen Hrows] Htiles]. split; [split|].
  - by rewrite length_imap.
  - apply Forall_lookup. intros r row Hrow.
    rewrite list_lookup_imap in Hrow.
    destruct (b !! r) as [row'|] eqn:E; [|done]. simplify_eq/=.
    unfold wfLine. rewrite length_imap.
    by apply (Forall_lookup_1 _ _ _ _ Hrows E).
  - apply Forall_lookup. intros r row Hrow.
    rewrite list_lookup_imap in Hrow.
    destruct (b !! r) as [row'|] eqn:E; [|done]. simplify_eq/=.
    apply Forall_lookup. intros c x Hx.
    rewrite list_lookup_imap in Hx.
    destruct (row' !! c) as [x'|] eqn:E'; [|done]. simplify_eq/=.
    apply HF. pose proof (Forall_lookup_1 _ _ _ _ Htiles E) as Hr.
    by apply (Forall_lookup_1 _ _ _ _ Hr E').
Qed.

Lemma map_goodBoard (f : Cell → Cell) (b : GameBoard) :
  (∀ x, cellSatisfies isTileValue x → cellSatisfies isTileValue (f x)) →
  goodBoard b → goodBoard (map (map f) b).
Proof.
  intros Hf [Hwf Htiles]. split; [by apply map_map_wf|].
  unfold tilesSatisfy in *. apply Forall_forall. intros row Hrow.
  apply list_elem_of_In, in_map_iff in Hrow as (row' & <- & Hin).
  apply Forall_forall. intros x Hx.
  apply list_elem_of_In, in_map_iff in Hx as (x' & <- & Hin').
  apply Hf. rewrite Forall_forall in Htiles.
  specialize (Htiles row' ltac:(by apply list_elem_of_In)).
  rewrite Forall_forall in Htiles. apply Htiles. by apply list_elem_of_In.
Qed.

Lemma isTileValue_2 : isTileValue 2.
Proof. by exists 0. Qed.

Lemma isTileValue_4 : isTileValue 4.
Proof. by exists 1. Qed.

Lemma addRandomTile_goodBoard (b : GameBoard) (d : Draw) :
  goodBoard b → goodBoard (addRandomTile b d).
Proof.
  intros [Hwf Htiles]. split; [by apply addRandomTile_wf|].
  apply addRandomTile_tilesSatisfy; [apply isTileValue_2|apply isTileValue_4|done].
Qed.

Lemma moveBoard_goodBoard (b : GameBoard) (dir : Direction) :
  goodBoard b → goodBoard (newBoard (moveBoard b dir)).
Proof.
  intros [Hwf Htiles]. split; [by apply moveBoard_wf|].
  apply moveBoard_tilesSatisfy; [apply isTileValue_double|done|done].
Qed.

Lemma goodBoard_initializeBoard : goodBoard initializeBoard.
Proof.
  split; [apply wfBoard_initializeBoard|]. unfold tilesSatisfy. by repeat constructor.
Qed.

Lemma perform_goodGame (g : Game2048) (r : Request) :
  goodGame g → goodGame (perform g r).
Proof.
  intros [Hboard Hstack].
  assert (Forall (λ s, goodBoard (gsBoard s))
            (pushSnapshot (mkGameState (board g) (score g)) (undoStack g))) as Hpush.
  { by apply pushSnapshot_Forall. }
  destruct r as [dir d| |row col d1 d2|d1 d2| | |]; cbn [perform].
  - split; [|by rewrite processMove_undoStack].
    destruct (moved (moveBoard (board g) dir)) eqn:Hmoved.
    + rewrite processMove_board by done.
      by apply addRandomTile_goodBoard, moveBoard_goodBoard.
    + by rewrite processMove_rejected.
  - unfold handleUndo. repeat case_match; try done.
    split; cbn [board undoStack flush foldl setBoard setScore setUndoStack
                  setUndoCount setGameWon setGameOver setPowerupMode
                  setSelectedTiles].
    + match goal with
      | H : undoStack g !! _ = Some _ |- _ => by apply (Forall_lookup_1 _ _ _ _ Hstack H)
      end.
    + by apply Forall_take.
  - destruct (handleTileClick g row col d1 d2) as [g'|] eqn:Hclick; [|done].
    cbn [from_option id]. unfold handleTileClick in Hclick.
    repeat case_match; simplify_eq; try done; split_when;
      (split; [|done]);
      cbn [board undoStack flush foldl setBoard setScore setUndoStack
             setUndoCount setSwapCount setDeleteCount setGameWon setGameOver
             setPowerupMode setSelectedTiles app].
    + lazymatch goal with
      | H : selectedTiles g = [(?firstRow, ?firstCol)] |- _ =>
          apply (imap_goodBoard
                   (λ rIdx cIdx cell,
                      if (rIdx =? firstRow) && (cIdx =? firstCol)
                      then cellAt (board g) row col
                      else if (rIdx =? row) && (cIdx =? col)
                           then cellAt (board g) firstRow firstCol
                           else cell)); [|done]
      end.
      intros r c x Hx. destruct Hboard as [_ Htiles].
      repeat case_match; try done; by apply cellAt_cellSatisfies.
    + by apply addRandomTile_goodBoard, addRandomTile_goodBoard, map_goodBoard;
        [intros x Hx; by case_match|].
    + by apply addRandomTile_goodBoard, addRandomTile_goodBoard, map_goodBoard;
        [intros x Hx; by case_match|].
    + by apply map_goodBoard; [intros x Hx; by case_match|].
    + by apply map_goodBoard; [intros x Hx; by case_match|].
  - split; [|cbn; constructor].
    rewrite startNewGame_fields. cbn [board].
    apply addRandomTile_goodBoard, addRandomTile_goodBoard, goodBoard_initializeBoard.
  - unfold swapButtonClick. by case_match.
  - unfold deleteButtonClick. by case_match.
  - done.
Qed.

Lemma perform_selection (g : Game2048) (r : Request) :
  length (selectedTiles g) ≤ 1 → length (selectedTiles (perform g r)) ≤ 1.
Proof.
  intros Hlen. destruct r as [dir d| |row col d1 d2|d1 d2| | |]; cbn [perform].
  - unfold processMove. destruct (moved (moveBoard (board g) dir)); cbn [negb fst].
    + generalize (addRandomTile (newBoard (moveBoard (board g) dir)) d). intros bt.
      split_when; done.
    + done.
  - unfold handleUndo. repeat case_match; try done. cbn. lia.
  - destruct (handleTileClick g row col d1 d2) as [g'|] eqn:Hclick; [|done].
    cbn [from_option id]. unfold handleTileClick in Hclick.
    repeat case_match; simplify_eq; try done; split_when; cbn in *; lia.
  - cbn. lia.
  - unfold swapButtonClick. by case_match.
  - unfold deleteButtonClick. by case_match.
  - cbn. lia.
Qed.

Lemma moved_iff_board_changed (b : GameBoard) (d : Direction) :
  wfBoard b → moved (moveBoard b d) = true ↔ newBoard (moveBoard b d) ≠ b.
Proof.
  intros Hwf. split.
  - intros Hmoved Hsame. apply moved_true_iff in Hmoved as (k & Hk & Hne); [|done].
    apply Hne. rewrite <- moveBoard_lineOf by done. by rewrite Hsame.
  - intros Hne. destruct (moved (moveBoard b d)) eqn:Hmoved; [done|].
    destruct Hne. apply moveBoard_unchanged; [done|].
    intros k Hk. by apply rejected_lines.
Qed.

Lemma empty_board_rejects (d : Direction) :
  moved (moveBoard initializeBoard d) = false.
Proof. by destruct d. Qed.

Lemma sumZ_merged_bounds (vs : list Z) :
  Forall (λ v, 0 <= v)%Z vs → (0 <= sumZ (mergedValues vs) <= sumZ vs)%Z.
Proof.
  induction vs as [|a|a b rest IH1 IH2] using list_pair_ind;
    unfold sumZ in *; simpl in *.
  - lia.
  - intros [H _]%Forall_cons. lia.
  - intros Hall. apply Forall_cons in Hall as [Ha Hall].
    pose proof Hall as Hall'. apply Forall_cons in Hall' as [Hb Hrest].
    destruct (Z.eqb_spec a b) as [->|Hne]; simpl.
    + specialize (IH1 Hrest). lia.
    + specialize (IH2 Hall). lia.
Qed.

Lemma isTileValue_pos (v : Z) : isTileValue v → (0 < v)%Z.
Proof. intros [k ->]. apply Z.pow_pos_nonneg; lia. Qed.

(** X8: on a board without negative tiles the score of a move lies between
    0 and the sum of the tiles of the board. *)
Theorem moveScore_bounded (b : GameBoard) (d : Direction) :
  wfBoard b → tilesSatisfy (λ v, 0 <= v)%Z b →
  (0 <= moveScore (moveBoard b d) <= boardSum b)%Z.
Proof.
  intros Hwf Htiles. rewrite moveBoard_score, (boardSum_lines b d) by done.
  assert (∀ k, k < GRID_SIZE →
            (0 <= snd (moveLine (lineOf b d k)) <= lineSum (lineOf b d k))%Z) as Hline.
  { intros k Hk. rewrite moveLine_spec. cbn [snd]. unfold lineSum.
    apply sumZ_merged_bounds. apply Forall_cellSatisfies.
    by apply (tilesSatisfy_lines _ b d). }
  unfold GRID_SIZE in *. cbn [seq fmap list_fmap]. unfold sumZ at 1 2 3. cbn [foldr].
  pose proof (Hline 0 ltac:(lia)). pose proof (Hline 1 ltac:(lia)).
  pose proof (Hline 2 ltac:(lia)). pose proof (Hline 3 ltac:(lia)). lia.
Qed.

(** X24: [handleKeyPress] changes nothing while a move is processed, the
    tutorial is shown or a powerup mode is active, nothing on Escape in
    any state, and once the game is over nothing but N and R. *)
Theorem keys_blocked (isProcessingMove showTutorial : bool) (g : Game2048)
    (event : KeyEvent) (d1 d2 : Draw) :
  (isProcessingMove = true ∨ showTutorial = true ∨ powerupMode g ≠ ModeNone
   ∨ code event = "Escape"
   ∨ (gameOver g = true ∧ code event ≠ "KeyN" ∧ code event ≠ "KeyR")) →
  handleKeyPress isProcessingMove showTutorial g event d1 d2 = g.
Proof.
  unfold handleKeyPress.
  intros [->|[->|[Hmode|[Hesc|(Hover & HN & HR)]]]].
  - done.
  - by rewrite orb_true_r.
  - rewrite (bool_decide_eq_false_2 _ Hmode). by rewrite orb_true_r.
  - case_match; [done|]. case_match; [done|].
    rewrite Hesc. cbn.
    match goal with
    | H : _ || _ || negb (bool_decide (powerupMode g = ModeNone)) = false |- _ =>
        apply orb_false_iff in H as [_ H]; rewrite H
    end.
    done.
  - case_match; [done|]. rewrite Hover.
    rewrite (bool_decide_eq_false_2 _ HN), (bool_decide_eq_false_2 _ HR). done.
Qed.

(** ** Further statements on the engine and the session, with instances *)

Lemma wfBoard_mergeBoard : wfBoard mergeBoard.
Proof. split; [done|by repeat constructor]. Qed.

Lemma wfBoard_stuckBoard : wfBoard stuckBoard.
Proof. split; [done|by repeat constructor]. Qed.

Lemma wfBoard_twoTwosBoard : wfBoard twoTwosBoard.
Proof. split; [done|by repeat constructor]. Qed.

Lemma goodGame_mergeGame : goodGame mergeGame.
Proof.
  split; [|constructor]. split; [apply wfBoard_mergeBoard|].
  unfold tilesSatisfy. repeat constructor; simpl; try done.
  - by exists 5.
  - by exists 5.
  - by exists 0.
Qed.

Lemma countersInRange_mergeGame : countersInRange mergeGame.
Proof. unfold countersInRange. cbn. split_and!; (lia || done). Qed.

(** X1: [arraysEqual] returns true exactly when the two arrays are the same
    list of cells; arrays of different lengths are never equal. *)
Theorem arraysEqual_decides_equality (arr1 arr2 : list Cell) :
  (arraysEqual arr1 arr2 = true ↔ arr1 = arr2)
  ∧ (length arr1 ≠ length arr2 → arraysEqual arr1 arr2 = false).
Proof.
  split; [apply arraysEqual_spec|].
  intros Hlen. apply arraysEqual_false. by intros ->.
Qed.

Lemma moveLine_fixed_iff_witness :
  wfLine [Some 2; Some 4; None; None]%Z
  ∧ fst (moveLine [Some 2; Some 4; None; None]%Z) = [Some 2; Some 4; None; None]%Z.
Proof.
  split; [reflexivity|].
  apply (proj1 (moveLine_fixed_iff [Some 2; Some 4; None; None]%Z eq_refl)).
  exists [2; 4]%Z. split; reflexivity.
Defined.

(** X4: [moveBoard] keeps the 4x4 shape, line [k] of the new board (seen
    from the edge the tiles travel to) is the resolved line [k] of the old
    board, and the score is the sum of the four line scores. *)
Theorem moveBoard_resolves_lines (b : GameBoard) (d : Direction) (k : nat) :
  wfBoard b → k < GRID_SIZE →
  wfBoard (newBoard (moveBoard b d))
  ∧ lineOf (newBoard (moveBoard b d)) d k = fst (moveLine (lineOf b d k))
  ∧ moveScore (moveBoard b d)
    = sumZ ((λ j, snd (moveLine (lineOf b d j))) <$> seq 0 GRID_SIZE).
Proof.
  intros Hwf Hk. split_and!.
  - by apply moveBoard_wf.
  - by apply moveBoard_lineOf.
  - by apply moveBoard_score.
Qed.

Lemma moveBoard_resolves_lines_witness :
  wfBoard mergeBoard ∧ 0 < GRID_SIZE
  ∧ lineOf (newBoard (moveBoard mergeBoard Left)) Left 0
    = [Some 128; None; None; None]%Z
  ∧ moveScore (moveBoard mergeBoard Left) = 128%Z.
Proof.
  assert (0 < GRID_SIZE) as H0 by (unfold GRID_SIZE; lia).
  destruct (moveBoard_resolves_lines mergeBoard Left 0 wfBoard_mergeBoard H0)
    as (_ & Hline & Hscore).
  split; [exact wfBoard_mergeBoard|]. split; [exact H0|].
  split; [exact Hline | exact Hscore].
Defined.

Lemma moveBoard_mirror_symmetry_witness :
  wfBoard mergeBoard
  ∧ newBoard (moveBoard mergeBoard Right)
    = reverse <$> newBoard (moveBoard (reverse <$> mergeBoard) Left).
Proof.
  split; [exact wfBoard_mergeBoard|].
  exact (f_equal newBoard (proj1 (moveBoard_mirror_symmetry mergeBoard wfBoard_mergeBoard))).
Defined.

(** X6: a move never creates a tile: the tiles of the new board plus the
    merges of the four lines make the tiles of the old board. *)
Theorem moveBoard_tile_count (b : GameBoard) (d : Direction) :
  wfBoard b →
  tileCount (newBoard (moveBoard b d))
  + sum_list ((λ k, length (mergedValues (filteredLine (lineOf b d k))))
              <$> seq 0 GRID_SIZE)
  = tileCount b
  ∧ tileCount (newBoard (moveBoard b d)) ≤ tileCount b.
Proof.
  intros Hwf. pose proof (moveBoard_tileCount b d Hwf). split; [done|lia].
Qed.

Lemma moveBoard_tile_count_witness :
  wfBoard mergeBoard ∧ tileCount (newBoard (moveBoard mergeBoard Left)) + 1 = 3.
Proof.
  split; [exact wfBoard_mergeBoard|].
  exact (proj1 (moveBoard_tile_count mergeBoard Left wfBoard_mergeBoard)).
Defined.

(** X7: [moved] is true exactly when the new board differs from the old
    one, and a move that did not change the board scores 0. *)
Theorem moved_iff_changed (b : GameBoard) (d : Direction) :
  wfBoard b →
  (moved (moveBoard b d) = true ↔ newBoard (moveBoard b d) ≠ b)
  ∧ (moved (moveBoard b d) = false → moveScore (moveBoard b d) = 0%Z).
Proof.
  intros Hwf. split; [by apply moved_iff_board_changed|]. by apply rejected_score.
Qed.

Lemma moved_iff_changed_witness :
  wfBoard packedBoard ∧ moveScore (moveBoard packedBoard Left) = 0%Z.
Proof.
  split; [exact wfBoard_packedBoard|].
  exact (proj2 (moved_iff_changed packedBoard Left wfBoard_packedBoard) eq_refl).
Defined.

Lemma moveScore_bounded_witness :
  wfBoard mergeBoard ∧ tilesSatisfy (λ v, 0 <= v)%Z mergeBoard
  ∧ (0 <= moveScore (moveBoard mergeBoard Left) <= 130)%Z.
Proof.
  assert (tilesSatisfy (λ v, 0 <= v)%Z mergeBoard) as Htiles.
  { unfold tilesSatisfy. repeat constructor; simpl; lia. }
  split; [exact wfBoard_mergeBoard|]. split; [exact Htiles|].
  exact (moveScore_bounded mergeBoard Left wfBoard_mergeBoard Htiles).
Defined.

(** X9: [isGameWon] holds exactly when some cell holds 2048; [isGameOver]
    holds exactly when no cell is empty and no cell equals its right or
    its bottom neighbour. *)
Theorem terminal_detectors_iff (b : GameBoard) :
  wfBoard b →
  (isGameWon b = true
   ↔ ∃ r c, r < GRID_SIZE ∧ c < GRID_SIZE ∧ cellAt b r c = Some WINNING_NUMBER)
  ∧ (isGameOver b = true
     ↔ (∀ r c, r < GRID_SIZE → c < GRID_SIZE → cellAt b r c ≠ None)
       ∧ (∀ r c, r < GRID_SIZE → c < GRID_SIZE - 1 →
            cellAt b r (c + 1) ≠ cellAt b r c)
       ∧ (∀ r c, r < GRID_SIZE - 1 → c < GRID_SIZE →
            cellAt b (r + 1) c ≠ cellAt b r c)).
Proof. intros _. split; [apply isGameWon_iff|apply isGameOver_iff]. Qed.

Lemma terminal_detectors_iff_witness :
  wfBoard stuckBoard ∧ ∀ r c, r < GRID_SIZE → c < GRID_SIZE → cellAt stuckBoard r c ≠ None.
Proof.
  split; [exact wfBoard_stuckBoard|].
  exact (proj1 (proj1 (proj2 (terminal_detectors_iff stuckBoard wfBoard_stuckBoard))
                  eq_refl)).
Defined.

Lemma gameOver_rejects_every_move_witness :
  wfBoard stuckBoard ∧ isGameOver stuckBoard = true
  ∧ moved (moveBoard stuckBoard Up) = false
  ∧ newBoard (moveBoard stuckBoard Up) = stuckBoard.
Proof.
  destruct (gameOver_rejects_every_move stuckBoard Up wfBoard_stuckBoard eq_refl)
    as (Hmoved & Hboard & _).
  split; [exact wfBoard_stuckBoard|]. split; [reflexivity|].
  split; [exact Hmoved | exact Hboard].
Defined.

(** X11: no move in any of the four directions changes a board exactly
    when the board is entirely empty or [isGameOver] accepts it: on a board
    with a tile [isGameOver] is the absence of a legal move. *)
Theorem no_move_iff (b : GameBoard) :
  wfBoard b →
  (∀ d, moved (moveBoard b d) = false)
  ↔ (b = initializeBoard ∨ isGameOver b = true).
Proof.
  intros Hwf. split; [by apply no_move_cases|].
  intros [->|Hover] d; [apply empty_board_rejects|by apply gameOver_rejected].
Qed.

Lemma no_move_iff_witness :
  wfBoard stuckBoard ∧ ∀ d, moved (moveBoard stuckBoard d) = false.
Proof.
  split; [exact wfBoard_stuckBoard|].
  exact (proj2 (no_move_iff stuckBoard wfBoard_stuckBoard) (or_intror eq_refl)).
Defined.

Lemma changed_move_spawns_one_tile_witness :
  wfBoard (board mergeGame) ∧ validDraw sampleDraw
  ∧ tileCount (board (fst (processMove mergeGame Left sampleDraw))) = 3.
Proof.
  destruct (changed_move_spawns_one_tile mergeGame Left sampleDraw
              wfBoard_mergeBoard validDraw_sampleDraw eq_refl)
    as (_ & Hcount & _).
  split; [exact wfBoard_mergeBoard|]. split; [exact validDraw_sampleDraw|].
  exact Hcount.
Defined.

Lemma startNewGame_fresh_witness :
  validDraw sampleDraw
  ∧ tileCount (board (startNewGame packedGame sampleDraw sampleDraw)) = 2
  ∧ undoCount (startNewGame packedGame sampleDraw sampleDraw) = 2%Z.
Proof.
  destruct (startNewGame_fresh packedGame sampleDraw sampleDraw
              validDraw_sampleDraw validDraw_sampleDraw)
    as (_ & _ & Hcount & _ & _ & _ & _ & _ & _ & _ & _ & Hundo & _).
  split; [exact validDraw_sampleDraw|]. split; [exact Hcount | exact Hundo].
Defined.

Lemma swap_exchanges_two_tiles_witness :
  wfBoard (board swapReadyGame)
  ∧ ∃ g', handleTileClick swapReadyGame 0 1 sampleDraw sampleDraw = Some g'
          ∧ cellAt (board g') 0 0 = Some 4%Z ∧ cellAt (board g') 0 1 = Some 2%Z
          ∧ swapCount g' = 0%Z.
Proof.
  split; [exact wfBoard_packedBoard|].
  assert (0 < GRID_SIZE) as H0 by (unfold GRID_SIZE; lia).
  assert ((0, 0) ≠ (0, 1)) as Hne by discriminate.
  destruct (swap_exchanges_two_tiles swapReadyGame 0 1 0 0 sampleDraw sampleDraw
              wfBoard_packedBoard eq_refl eq_refl H0 H0 eq_refl Hne)
    as (g' & Hclick & Hfirst & Hsecond & _ & Hcount & _).
  exists g'. split; [exact Hclick|]. split; [exact Hfirst|].
  split; [exact Hsecond | exact Hcount].
Defined.

Lemma delete_clears_value_witness :
  wfBoard (board deleteModeGame)
  ∧ ∃ g', handleTileClick deleteModeGame 0 0 sampleDraw sampleDraw = Some g'
          ∧ cellAt (board g') 0 2 = None ∧ cellAt (board g') 0 1 = Some 4%Z
          ∧ deleteCount g' = 0%Z.
Proof.
  split; [exact wfBoard_packedBoard|].
  assert (2 ≠ 0)%Z as Hv by discriminate.
  assert (∃ r c w, r < GRID_SIZE ∧ c < GRID_SIZE
                   ∧ cellAt (board deleteModeGame) r c = Some w ∧ w ≠ 2%Z) as Hother.
  { exists 0, 1, 4%Z. unfold GRID_SIZE. split_and!; [lia|lia|reflexivity|discriminate]. }
  destruct (delete_clears_value deleteModeGame 0 0 sampleDraw sampleDraw 2
              wfBoard_packedBoard eq_refl eq_refl eq_refl Hv Hother)
    as (g' & Hclick & Hcells & _ & Hcount & _).
  exists g'. split; [exact Hclick|]. split; [exact (Hcells 0 2)|].
  split; [exact (Hcells 0 1) | exact Hcount].
Defined.

Lemma delete_last_value_respawns_witness :
  wfBoard (board twoTwosGame) ∧ validDraw sampleDraw
  ∧ ∃ g', handleTileClick twoTwosGame 0 0 sampleDraw sampleDraw = Some g'
          ∧ tileCount (board g') = 2.
Proof.
  split; [exact wfBoard_twoTwosBoard|]. split; [exact validDraw_sampleDraw|].
  assert (2 ≠ 0)%Z as Hv by discriminate.
  assert (∀ r c, r < GRID_SIZE → c < GRID_SIZE →
            cellAt (board twoTwosGame) r c = None
            ∨ cellAt (board twoTwosGame) r c = Some 2%Z) as Hall.
  { unfold GRID_SIZE. apply all_4_4. cbn. split_and!; (by left) || (by right). }
  destruct (delete_last_value_respawns twoTwosGame 0 0 sampleDraw sampleDraw 2
              wfBoard_twoTwosBoard eq_refl eq_refl eq_refl Hv Hall
              validDraw_sampleDraw validDraw_sampleDraw)
    as (g' & Hclick & _ & Hcount & _).
  exists g'. split; [exact Hclick | exact Hcount].
Defined.

Lemma tile_click_keeps_flags_witness :
  wfBoard (board swapModeGame)
  ∧ handleTileClick swapModeGame 0 0 sampleDraw sampleDraw = Some swapReadyGame
  ∧ gameOver swapReadyGame = gameOver swapModeGame.
Proof.
  split; [exact wfBoard_packedBoard|]. split; [reflexivity|].
  exact (proj1 (tile_click_keeps_flags swapModeGame swapReadyGame 0 0
                  sampleDraw sampleDraw wfBoard_packedBoard eq_refl)).
Defined.

Lemma two_moves_two_undos_witness :
  (1 < undoCount mergeGame)%Z
  ∧ board (handleUndo (handleUndo
      (fst (processMove (fst (processMove mergeGame Left sampleDraw)) Up sampleDraw))))
    = mergeBoard.
Proof.
  assert (1 < undoCount mergeGame)%Z as Hu by reflexivity.
  destruct (two_moves_two_undos mergeGame Left Up sampleDraw sampleDraw Hu)
    as (_ & _ & Hboard & _).
  split; [exact Hu | exact Hboard].
Defined.

Lemma move_then_undo_history_witness :
  (0 < undoCount packedGame)%Z
  ∧ undoStack (handleUndo (fst (processMove packedGame Left sampleDraw))) = []
  ∧ undoCount (handleUndo (fst (processMove packedGame Left sampleDraw))) = 1%Z.
Proof.
  assert (0 < undoCount packedGame)%Z as Hu by reflexivity.
  destruct (move_then_undo_history packedGame Left sampleDraw Hu)
    as (_ & _ & _ & _ & _ & _ & _ & _ & Hstack & _ & Hcount).
  split; [exact Hu|]. split; [exact Hstack | exact (Hcount eq_refl)].
Defined.

Lemma powerup_then_undo_witness :
  handleTileClick swapReadyGame 0 1 sampleDraw sampleDraw = Some swappedGame
  ∧ board swappedGame ≠ board swapReadyGame
  ∧ (0 < undoCount swapReadyGame)%Z
  ∧ board (handleUndo swappedGame) = packedBoard
  ∧ swapCount (handleUndo swappedGame) = 0%Z.
Proof.
  assert (board swappedGame ≠ board swapReadyGame) as Hne by discriminate.
  assert (0 < undoCount swapReadyGame)%Z as Hu by reflexivity.
  destruct (powerup_then_undo swapReadyGame swappedGame 0 1 sampleDraw sampleDraw
              eq_refl Hne Hu) as (Hboard & _ & _ & Hswap & _).
  split; [reflexivity|]. split; [exact Hne|]. split; [exact Hu|].
  split; [exact Hboard | exact Hswap].
Defined.

(** X21: every request keeps the board and all snapshots of the history
    4x4 with every tile one of 2, 4, 8, ..., and so they are on every state
    reached from the first render. *)
Theorem good_boards_invariant (g : Game2048) (r : Request) :
  goodGame g →
  goodGame (perform g r) ∧ ∀ rs, goodGame (foldl perform initialGame rs).
Proof.
  intros Hgood. split; [by apply perform_goodGame|].
  intros rs. induction rs as [|r' rs IH] using rev_ind.
  - split; [apply goodBoard_initializeBoard|constructor].
  - rewrite foldl_app. by apply perform_goodGame.
Qed.

Lemma good_boards_invariant_witness :
  goodGame mergeGame ∧ goodGame (perform mergeGame (ReqMove Left sampleDraw)).
Proof.
  split; [exact goodGame_mergeGame|].
  exact (proj1 (good_boards_invariant mergeGame (ReqMove Left sampleDraw)
                  goodGame_mergeGame)).
Defined.

(** X22: the selection never holds more than one tile, on every state
    reached from the first render. *)
Theorem selection_at_most_one (g : Game2048) (r : Request) :
  length (selectedTiles g) ≤ 1 →
  length (selectedTiles (perform g r)) ≤ 1
  ∧ ∀ rs, length (selectedTiles (foldl perform initialGame rs)) ≤ 1.
Proof.
  intros Hlen. split; [by apply perform_selection|].
  intros rs. induction rs as [|r' rs IH] using rev_ind; [simpl; lia|].
  rewrite foldl_app. by apply perform_selection.
Qed.

Lemma selection_at_most_one_witness :
  length (selectedTiles swapReadyGame) ≤ 1
  ∧ length (selectedTiles
              (perform swapReadyGame (ReqTileClick 0 1 sampleDraw sampleDraw))) ≤ 1.
Proof.
  assert (length (selectedTiles swapReadyGame) ≤ 1) as Hlen by (simpl; lia).
  split; [exact Hlen|].
  exact (proj1 (selection_at_most_one swapReadyGame
                  (ReqTileClick 0 1 sampleDraw sampleDraw) Hlen)).
Defined.

(** X23: through the handlers and the buttons with their disabled gates
    the three counters stay between 0 and their maxima and swap mode is
    never active with no swap left. *)
Theorem counters_stay_in_range (g : Game2048) (r : Request) :
  countersInRange g →
  countersInRange (perform g r)
  ∧ ∀ rs, countersInRange (foldl perform initialGame rs).
Proof.
  intros Hin. split; [by apply perform_countersInRange|].
  apply reachable_countersInRange.
Qed.

Lemma counters_stay_in_range_witness :
  countersInRange mergeGame
  ∧ countersInRange (perform mergeGame (ReqMove Left sampleDraw)).
Proof.
  split; [exact countersInRange_mergeGame|].
  exact (proj1 (counters_stay_in_range mergeGame (ReqMove Left sampleDraw)
                  countersInRange_mergeGame)).
Defined.

Lemma keys_blocked_witness :
  powerupMode swapReadyGame ≠ ModeNone
  ∧ handleKeyPress false false swapReadyGame escapeKey sampleDraw sampleDraw
    = swapReadyGame.
Proof.
  assert (powerupMode swapReadyGame ≠ ModeNone) as Hmode by discriminate.
  split; [exact Hmode|].
  apply keys_blocked. right. right. left. exact Hmode.
Defined.

(** ** The undo history *)

(** C8: every request keeps the undo history at 5 snapshots at most, on
    any state and so on every state reached from the first render.  Every
    move, and every swap or delete that takes effect, leaves the history
    of before with all but its last 4 snapshots dropped and the grid and
    score of before appended; any other tile click leaves it as it was or
    does the same; an undo leaves it or removes its last snapshot, a new
    session empties it, the buttons leave it.  The pushed history has one
    snapshot more than the at most 4 kept, and on a full history
    [s0 .. s4] it is [s1; s2; s3; s4] followed by the new snapshot: the
    oldest is evicted, the 4 most recent stay in their order. *)
Theorem undoStack_bounded (g : Game2048) (r : Request) :
  length (undoStack g) ≤ 5 →
  let snap := mkGameState (board g) (score g) in
  let pushed := drop (length (undoStack g) - 4) (undoStack g) ++ [snap] in
  length (undoStack (perform g r)) ≤ 5
  ∧ (∀ rs, length (undoStack (foldl perform initialGame rs)) ≤ 5)
  ∧ (∀ snap prev, length (pushSnapshot snap prev) ≤ 5)
  ∧ (∀ snap s0 s1 s2 s3 s4,
       pushSnapshot snap [s0; s1; s2; s3; s4] = [s1; s2; s3; s4; snap])
  ∧ (∀ dir d, undoStack (perform g (ReqMove dir d)) = pushed)
  ∧ (∀ row col firstRow firstCol d1 d2,
       powerupMode g = ModeSwap → selectedTiles g = [(firstRow, firstCol)] →
       row < length (board g) → truthy (cellAt (board g) row col) = true →
       (firstRow, firstCol) ≠ (row, col) →
       undoStack (perform g (ReqTileClick row col d1 d2)) = pushed)
  ∧ (∀ row col d1 d2,
       powerupMode g = ModeDelete → row < length (board g) →
       truthy (cellAt (board g) row col) = true → (0 < deleteCount g)%Z →
       undoStack (perform g (ReqTileClick row col d1 d2)) = pushed)
  ∧ (∀ row col d1 d2,
       undoStack (perform g (ReqTileClick row col d1 d2)) = undoStack g
       ∨ undoStack (perform g (ReqTileClick row col d1 d2)) = pushed)
  ∧ (undoStack (perform g ReqUndo) = undoStack g
     ∨ undoStack (perform g ReqUndo)
       = take (length (undoStack g) - 1) (undoStack g))
  ∧ (∀ d1 d2, undoStack (perform g (ReqNewGame d1 d2)) = [])
  ∧ undoStack (perform g ReqSwapButton) = undoStack g
  ∧ undoStack (perform g ReqDeleteButton) = undoStack g
  ∧ undoStack (perform g ReqCancel) = undoStack g
  ∧ length pushed = S (Nat.min (length (undoStack g)) 4)
  ∧ (∀ s0 s1 s2 s3 s4,
       undoStack g = [s0; s1; s2; s3; s4] → pushed = [s1; s2; s3; s4; snap]).
Proof.
  intros Hlen snap pushed.
  change pushed with (pushSnapshot snap (undoStack g)).
  split_and!.
  - by apply perform_undoStack_bound.
  - intros rs. induction rs as [|r' rs IH] using rev_ind; [simpl; lia|].
    rewrite foldl_app. simpl. by apply perform_undoStack_bound.
  - intros snap' prev. rewrite length_pushSnapshot. lia.
  - intros. reflexivity.
  - intros dir d. cbn [perform]. apply processMove_undoStack.
  - intros row col firstRow firstCol d1 d2 Hmode Hsel Hrow Ht Hne. cbn [perform].
    destruct (handleTileClick_swap g row col firstRow firstCol d1 d2
                Hmode Hsel Hrow Ht Hne) as (b' & -> & _).
    reflexivity.
  - intros row col d1 d2 Hmode Hrow Ht Hcount. cbn [perform].
    rewrite (handleTileClick_delete g row col d1 d2 Hmode Hrow Ht Hcount).
    reflexivity.
  - intros row col d1 d2. cbn [perform].
    destruct (handleTileClick g row col d1 d2) as [g'|] eqn:E; [|by left].
    cbn [from_option id]. by apply handleTileClick_undoStack in E.
  - cbn [perform]. unfold handleUndo. repeat case_match; try (by left).
    right. reflexivity.
  - intros d1 d2. reflexivity.
  - cbn [perform]. unfold swapButtonClick. by case_match.
  - cbn [perform]. unfold deleteButtonClick. by case_match.
  - reflexivity.
  - apply length_pushSnapshot.
  - intros s0 s1 s2 s3 s4 Hfull. by rewrite Hfull.
Qed.

Lemma undoStack_bounded_witness :
  length (undoStack fullHistoryGame) ≤ 5
  ∧ length (undoStack fullHistoryGame) = 5
  ∧ undoStack (perform fullHistoryGame (ReqMove Left sampleDraw))
    = [mkGameState packedBoard 10; mkGameState packedBoard 20;
       mkGameState packedBoard 30; mkGameState packedBoard 40;
       mkGameState mergeBoard 50]
  ∧ undoStack (perform fullHistorySwapGame (ReqTileClick 0 1 sampleDraw sampleDraw))
    = [mkGameState mergeBoard 10; mkGameState mergeBoard 20;
       mkGameState mergeBoard 30; mkGameState mergeBoard 40;
       mkGameState packedBoard 50].
Proof.
  assert (length (undoStack fullHistoryGame) ≤ 5) as Hlen by (simpl; lia).
  assert (length (undoStack fullHistorySwapGame) ≤ 5) as Hlen' by (simpl; lia).
  pose proof (undoStack_bounded fullHistoryGame ReqUndo Hlen)
    as (_ & _ & _ & _ & Hmove & _ & _ & _ & _ & _ & _ & _ & _ & _ & Hfull).
  pose proof (undoStack_bounded fullHistorySwapGame ReqUndo Hlen')
    as (_ & _ & _ & _ & _ & Hswap & _ & _ & _ & _ & _ & _ & _ & _ & Hfull').
  split; [exact Hlen|]. split; [reflexivity|]. split.
  - rewrite (Hmove Left sampleDraw). exact (Hfull _ _ _ _ _ eq_refl).
  - rewrite (Hswap 0 1 0 0 sampleDraw sampleDraw eq_refl eq_refl);
      [exact (Hfull' _ _ _ _ _ eq_refl) | simpl; lia | reflexivity | discriminate].
Defined.
